(** * gs-tools: identity reconciliation and batch extensions

    A shallow embedding of [gs-tools.py]: the name normaliser, the roster
    builders, the interactive selection helper and the matching and
    ambiguity passes of [main_extend], with the properties of the
    specification stated over them.

    Conventions of the embedding.
    - A Python [str] is a [string] (text in the ASCII range: [lower],
      [strip] and [isdigit] act on ASCII letters, blanks and digits the way
      Python's do on such text).
    - A Python [dict] is an insertion-ordered association list with unique
      keys ([Dict.set] overwrites in place or appends), so that
      [list(roster.keys())] has the order Python gives it.
    - A Python exception is a constructor of [exn]; code that can raise
      returns a [result].  Code that prints, reads standard input or calls
      the grading platform runs in the monad [M] over a [world] that holds
      the lines still to be read and everything emitted so far.
    - The functions are embedded as they are written, line numbers
      referring to [gs-tools.py]; file and network access stay outside:
      a CSV file is the list of its rows, the course file is its roster,
      and a call of the grading platform is the event that records it. *)

From stdpp Require Import base option list strings gmap pretty.
From Stdlib Require Import ZArith Ascii.

(** ** Python values and exceptions *)

Inductive exn : Set :=
  | UnboundLocalError
  | IndexError
  | KeyError
  | ValueError
  | EOFError
  | StopIteration
  | SystemExit.

Inductive result (A : Type) : Type :=
  | Ok (a : A)
  | Raise (e : exn).
Arguments Ok {A} a.
Arguments Raise {A} e.

#[global] Instance result_ret : MRet result := fun _ a => Ok a.
#[global] Instance result_bind : MBind result := fun _ _ f m =>
  match m with
  | Ok a => f a
  | Raise e => Raise e
  end.

(** Reading a local variable: [None] is a name of the function's scope that
    no assignment has bound yet. *)
Definition read_local {A} (x : option A) : result A :=
  match x with
  | Some a => Ok a
  | None => Raise UnboundLocalError
  end.

(** [l[i]] for a non-negative index. *)
Definition index {A} (l : list A) (i : nat) : result A :=
  match l !! i with
  | Some a => Ok a
  | None => Raise IndexError
  end.

Module Str.

Definition code (c : ascii) : nat := nat_of_ascii c.

Definition is_upper (c : ascii) : bool :=
  (65 <=? code c)%nat && (code c <=? 90)%nat.

Definition lower_char (c : ascii) : ascii :=
  if is_upper c then ascii_of_nat (code c + 32) else c.

(** [s.lower()] *)
Fixpoint lower (s : string) : string :=
  match s with
  | EmptyString => EmptyString
  | String c s' => String (lower_char c) (lower s')
  end.

(** The ASCII characters [str.isspace] accepts: tab, line feed, vertical
    tab, form feed, carriage return, the four separators 28..31, space. *)
Definition is_space (c : ascii) : bool :=
  let n := code c in
  ((9 <=? n)%nat && (n <=? 13)%nat) || ((28 <=? n)%nat && (n <=? 32)%nat).

Fixpoint lstrip (s : string) : string :=
  match s with
  | EmptyString => EmptyString
  | String c s' => if is_space c then lstrip s' else s
  end.

Fixpoint rstrip (s : string) : string :=
  match s with
  | EmptyString => EmptyString
  | String c s' =>
      match rstrip s' with
      | EmptyString => if is_space c then EmptyString else String c EmptyString
      | r => String c r
      end
  end.

(** [s.strip()] *)
Definition strip (s : string) : string := rstrip (lstrip s).

(** [s.split(sep)] for a non-empty [sep] (the program passes the literals
    [","] and [", "]): a left-to-right scan that cuts at every occurrence
    of [sep] and resumes after it.  [skip] counts the characters of a
    separator just matched that are still to be passed over; [cur] is the
    piece being read. *)
Fixpoint split_from (sep : string) (skip : nat) (cur s : string) : list string :=
  match s with
  | EmptyString => [cur]
  | String c s' =>
      match skip with
      | S k => split_from sep k cur s'
      | O =>
          if String.prefix sep s
          then cur :: split_from sep (String.length sep - 1) EmptyString s'
          else split_from sep 0 (cur +:+ String c EmptyString) s'
      end
  end.

Definition split (sep s : string) : list string :=
  split_from sep 0 EmptyString s.

(** [sep.join(l)] *)
Fixpoint join (sep : string) (l : list string) : string :=
  match l with
  | [] => EmptyString
  | [x] => x
  | x :: l' => x +:+ sep +:+ join sep l'
  end.

Definition is_digit (c : ascii) : bool :=
  (48 <=? code c)%nat && (code c <=? 57)%nat.

(** [s.isdigit()]: at least one character, all of them digits. *)
Definition isdigit (s : string) : bool :=
  match s with
  | EmptyString => false
  | _ => forallb is_digit (String.list_ascii_of_string s)
  end.

(** The number that a string of decimal digits writes. *)
Definition decimal (s : string) : nat :=
  fold_left (fun acc c => 10 * acc + (code c - 48)) (String.list_ascii_of_string s) 0.

(** [sys.int_info.default_max_str_digits]: the most digits that [int]
    converts, in the versions of Python that have [tomllib] (3.11 and
    later).  Leading zeros count. *)
Definition max_str_digits : Z := 4300.

(** [int(s)] for a string of decimal digits: [ValueError] when there are
    more of them than [int] converts. *)
Definition int (s : string) : result nat :=
  if (max_str_digits <? Z.of_nat (String.length s))%Z then Raise ValueError
  else Ok (decimal s).

(** Text in the ASCII range. *)
Definition is_ascii (s : string) : bool :=
  forallb (fun c => (code c <? 128)%nat) (String.list_ascii_of_string s).

Definition contains_char (c : ascii) (s : string) : bool :=
  existsb (Ascii.eqb c) (String.list_ascii_of_string s).

(** The line feed, for the multi-line messages. *)
Definition nl : string := String (ascii_of_nat 10) EmptyString.

End Str.

(** ** Dictionaries *)

Module Dict.

Definition dict (V : Type) : Type := list (string * V).

Section Ops.
Context {V : Type}.

Fixpoint get (d : dict V) (k : string) : option V :=
  match d with
  | [] => None
  | (k', v) :: d' => if String.eqb k k' then Some v else get d' k
  end.

(** [k in d] *)
Definition mem (k : string) (d : dict V) : bool :=
  match get d k with Some _ => true | None => false end.

(** [d[k] = v]: a key already present keeps its place. *)
Fixpoint set (d : dict V) (k : string) (v : V) : dict V :=
  match d with
  | [] => [(k, v)]
  | (k', v') :: d' =>
      if String.eqb k k' then (k', v) :: d' else (k', v') :: set d' k v
  end.

(** [list(d.keys())] *)
Definition keys (d : dict V) : list string := map fst d.

(** [d[k]] *)
Definition getitem (d : dict V) (k : string) : result V :=
  match get d k with
  | Some v => Ok v
  | None => Raise KeyError
  end.
End Ops.

End Dict.

(** ** The name normaliser *)

(** [normalize_name] (lines 33-41).  [name] is a local of the function; the
    [elif] reads it before any assignment has run.
<<
    split_name = name_str.split(",")
    if len(split_name) == 1:
        name = split_name[0]
    elif len(name) == 2:
        name = f"{split_name[1].strip()} {split_name[0].strip()}"
    else:
        name = f"{split_name[1].strip()} {split_name[0].strip()}"
    return name
>> *)
Definition swap_parts (split_name : list string) : result string :=
  p1 ← index split_name 1;
  p0 ← index split_name 0;
  Ok (Str.strip p1 +:+ " " +:+ Str.strip p0).

Definition normalize_name (name_str : string) : result string :=
  let split_name := Str.split "," name_str in
  let name : option string := None in
  if (List.length split_name =? 1)%nat then
    index split_name 0
  else
    n ← read_local name;
    if (String.length n =? 2)%nat then swap_parts split_name
    else swap_parts split_name.

(** ** The roster builders over a CSV export *)

Fixpoint foldM {S A : Type} (body : S → A → result S) (xs : list A) (s : S)
  : result S :=
  match xs with
  | [] => Ok s
  | x :: xs' => s' ← body s x; foldM body xs' s'
  end.

Abbreviation roster_t := (Dict.dict string).

(** The body of the loop of [read_gradescope_roster] (lines 61-65); the
    columns are name, SID, email, role. *)
Definition gradescope_entry (roster : roster_t) (entry : list string)
  : result roster_t :=
  role ← index entry 3;
  if String.eqb role "Student" then
    raw ← index entry 0;
    name ← normalize_name raw;
    email ← index entry 2;
    Ok (Dict.set roster name email)
  else Ok roster.

(** [read_gradescope_roster] (lines 55-66) over the rows [csv.reader]
    yields for the file; [next(roster_reader)] takes the header row. *)
Definition read_gradescope_roster (rows : list (list string)) : result roster_t :=
  match rows with
  | [] => Raise StopIteration
  | header :: entries => foldM gradescope_entry entries []
  end.

(** The body of the loop of [read_piazza_roster] (lines 48-52); the columns
    are name, email, role. *)
Definition piazza_entry (roster : roster_t) (entry : list string)
  : result roster_t :=
  role ← index entry 2;
  if String.eqb role "Student" then
    raw ← index entry 0;
    normalized ← normalize_name raw;
    let name := Str.lower normalized in
    email ← index entry 1;
    Ok (Dict.set roster name email)
  else Ok roster.

(** [read_piazza_roster] (lines 43-53). *)
Definition read_piazza_roster (rows : list (list string)) : result roster_t :=
  match rows with
  | [] => Raise StopIteration
  | header :: entries => foldM piazza_entry entries []
  end.

(** ** Interaction: the terminal and the grading platform *)

(** An assignment of the grading platform, as the client library hands it
    over: [get_name()] and the identity the extension is filed under. *)
Record assignment : Set := { assignment_id : nat; get_name : string }.

Inductive event : Set :=
  | Print (line : string)
  | Prompt (text : string)
  | ApplyExtension (a : assignment) (email : string) (days : Z).

Record world : Set := { stdin : list string; out : list event }.

Definition M (A : Type) : Type := world → result A * world.

#[global] Instance M_ret : MRet M := fun _ a w => (Ok a, w).
#[global] Instance M_bind : MBind M := fun _ _ f m w =>
  match m w with
  | (Ok a, w') => f a w'
  | (Raise e, w') => (Raise e, w')
  end.

Definition lift {A} (r : result A) : M A := fun w => (r, w).

Definition emit (e : event) : M unit := fun w =>
  (Ok (), {| stdin := stdin w; out := out w ++ [e] |}).

Definition print (line : string) : M unit := emit (Print line).

(** [assignment.apply_extension(email, days)]: the call is recorded. *)
Definition apply_extension (a : assignment) (email : string) (days : Z) : M unit :=
  emit (ApplyExtension a email days).

(** [for x in xs: body] *)
Fixpoint for_each {A} (xs : list A) (body : A → M unit) : M unit :=
  match xs with
  | [] => mret ()
  | x :: xs' => body x ;; for_each xs' body
  end.

(** [for x in xs: s = body(s, x)], for a loop that updates locals [s]. *)
Fixpoint for_fold {S A} (body : S → A → M S) (xs : list A) (s : S) : M S :=
  match xs with
  | [] => mret s
  | x :: xs' => s' ← body s x; for_fold body xs' s'
  end.

(** [max(l)] *)
Definition py_max (l : list nat) : result nat :=
  match l with
  | [] => Raise ValueError
  | x :: l' => Ok (fold_left Nat.max l' x)
  end.

Definition enumerate {A} (l : list A) : list (nat * A) :=
  zip (seq 0 (length l)) l.

(** The [while ix is None] loop of [selection_helper] (lines 114-123): one
    line of input per turn, until a line is a number within range.  The end
    of the input makes [input] raise, and a line of more digits than [int]
    converts makes [int] raise, which ends the loop as well.  The lines are
    text in the ASCII range, where [isdigit] accepts the ten digits and
    [int] converts them; the digits of Unicode beyond it, some of which
    [int] refuses, are kept out of the statements by [Str.is_ascii].
<<
    ix = input("Selection: ")
    if ix.isdigit():
        ix = int(ix)-1
        if ix < 0 or ix >= len(options):
            print(f"{ix+1} not within range. {msg}")
            ix = None
    else:
        ix = None
>> *)
Fixpoint selection_loop (n : nat) (msg : string) (lines : list string)
    (o : list event) : result nat * world :=
  let o := o ++ [Prompt "Selection: "] in
  match lines with
  | [] => (Raise EOFError, {| stdin := []; out := o |})
  | line :: rest =>
      if Str.isdigit line then
        match Str.int line with
        | Raise e => (Raise e, {| stdin := rest; out := o |})
        | Ok number =>
            let ix := (Z.of_nat number - 1)%Z in
            if ((ix <? 0) || (ix >=? Z.of_nat n))%Z then
              selection_loop n msg rest
                (o ++ [Print (pretty (ix + 1)%Z +:+ " not within range. " +:+ msg)])
            else (Ok (Z.to_nat ix), {| stdin := rest; out := o |})
        end
      else selection_loop n msg rest o
  end.

Definition read_selection (n : nat) (msg : string) : M nat :=
  λ w, selection_loop n msg (stdin w) (out w).

(** [selection_helper] (lines 105-124). *)
Definition selection_helper (options : list string) (msg : string) : M nat :=
  print msg ;;
  longest_name_len ← lift (py_max (map String.length options));
  for_each (enumerate options)
    (λ '(ix, opt), print ("  (" +:+ pretty (ix + 1) +:+ ") " +:+ opt)) ;;
  read_selection (length options) msg.

Definition default_msg : string :=
  "Enter a number (i) corresponding to the desired choice:".

(** ** Building the roster from the forum membership *)

(** A forum user, with the fields the setup reads: [x["name"]],
    [x["email"]] (the addresses, joined by [", "]) and [x["role"]]. *)
Record pz_user : Set := { pz_name : string; pz_email : string; pz_role : string }.

(** The inner loop of lines 177-180.  [valid_email] and [email] are the two
    locals: [email] is the loop variable, [valid_email] is assigned at the
    [break].
<<
    for email in emails:
        if email in valid_emails:
            valid_email = email
            break
>> *)
Fixpoint scan_emails (valid_emails : gset string) (emails : list string)
    (valid_email email : option string) : option string * option string :=
  match emails with
  | [] => (valid_email, email)
  | e :: rest =>
      let email := Some e in
      if bool_decide (e ∈ valid_emails) then (email, email)
      else scan_emails valid_emails rest valid_email email
  end.

(** The locals the loop over the students carries from turn to turn. *)
Record setup_locals : Type :=
  { roster : roster_t; sans_emails : list string; email_var : option string }.

(** Before the loop: an empty roster, nobody unmatched, [email] unbound. *)
Definition no_locals : setup_locals :=
  {| roster := []; sans_emails := []; email_var := None |}.

(** The body of the loop over the students (lines 173-185); the roster
    entry is written from the loop variable [email]. *)
Definition setup_student (valid_emails : gset string) (st : setup_locals)
    (student : pz_user) : result setup_locals :=
  let name := Str.lower (pz_name student) in
  let emails := Str.split ", " (pz_email student) in
  let '(valid_email, email) := scan_emails valid_emails emails None (email_var st) in
  match valid_email with
  | None =>
      Ok {| roster := roster st; sans_emails := sans_emails st ++ [name];
            email_var := email |}
  | Some _ =>
      e ← read_local email;
      Ok {| roster := Dict.set (roster st) name e; sans_emails := sans_emails st;
            email_var := email |}
  end.

(** The warning of line 187: the sentence, then every name after a line
    feed and two blanks (the f-string joins the names inside its braces). *)
Definition sans_emails_warning (sans : list string) : string :=
  "Warning: could not find an email for the following students. Check to make sure they aren't enrolled on gradescope"
  +:+ Str.nl +:+ "  " +:+ Str.join (Str.nl +:+ "  ") sans.

(** Lines 169-187 of [interactive_setup]: the roster built from the forum's
    users and the e-mail addresses of the grading platform's roster. *)
Definition interactive_setup_roster (all_users : list pz_user)
    (gs_emails : list string) : M roster_t :=
  let students := filter (λ x, pz_role x = "student") all_users in
  let valid_emails : gset string := list_to_set gs_emails in
  st ← lift (foldM (setup_student valid_emails) students no_locals);
  (if sans_emails st is [] then mret ()
   else print (sans_emails_warning (sans_emails st))) ;;
  mret (roster st).

(** ** Matching names and applying extensions *)

(** The ambiguous names: each with its close matches. *)
Abbreviation ambig_t := (list (string * list string)).

Section MainExtend.

(** [difflib.get_close_matches(word, possibilities, n)], of Python's
    standard library: any function of that type. *)
Variable get_close_matches : string → list string → nat → list string.

Variable course_roster : roster_t.
Variable assignments : list assignment.
Variable days : Z.

(** Lines 272-274 and 283-285: the line for a resolved student, then one
    extension per assignment. *)
Definition apply_all (student_name : string) : M unit :=
  for_each assignments (λ a,
    e ← lift (Dict.getitem course_roster student_name);
    apply_extension a e days).

(** The body of the matching loop (lines 258-274).  The locals that
    outlive a turn are [ambig_names] and [email].
<<
  student_name = raw_name.lower()
  if student_name not in roster:
      close_matches = get_close_matches(student_name, roster_names, n=5)
      if len(close_matches) == 1:
          email = roster[close_matches[1]]
      if len(close_matches) == 0:
          print(f"{student_name}: could not find in the roster")
          continue
      else:
          print(f"{student_name}: At least {len(close_matches)} found")
          ambig_names.append((student_name, close_matches))
          continue
  else:
      email = roster[student_name]
  print(f"  {student_name} ({email})")
  for assignment in assignments:
      assignment.apply_extension(roster[student_name], args.days)
>> *)
Definition match_name (roster_names : list string)
    (st : ambig_t * option string) (raw_name : string)
  : M (ambig_t * option string) :=
  let '(ambig_names, email) := st in
  let student_name := Str.lower raw_name in
  if negb (Dict.mem student_name course_roster) then
    let close_matches := get_close_matches student_name roster_names 5 in
    email ← (if (length close_matches =? 1)%nat then
               c ← lift (index close_matches 1);
               e ← lift (Dict.getitem course_roster c);
               mret (Some e)
             else mret email);
    if (length close_matches =? 0)%nat then
      print (student_name +:+ ": could not find in the roster") ;;
      mret (ambig_names, email)
    else
      print (student_name +:+ ": At least " +:+ pretty (length close_matches)
             +:+ " found") ;;
      mret (ambig_names ++ [(student_name, close_matches)], email)
  else
    e ← lift (Dict.getitem course_roster student_name);
    let email := Some e in
    shown ← lift (read_local email);
    print ("  " +:+ student_name +:+ " (" +:+ shown +:+ ")") ;;
    apply_all student_name ;;
    mret (ambig_names, email).

Definition none_option : string := "(None)".

Definition select_msg : string :=
  "Select the number for the correct student (or none if none of these names match)".

(** The body of the loop over the ambiguous names (lines 277-285). *)
Definition resolve_ambiguity (entry : string * list string) : M unit :=
  let '(ambig_name, options) := entry in
  print (ambig_name +:+ ": Found the following close matches:") ;;
  ix ← selection_helper (options ++ [none_option]) select_msg;
  if (ix =? length options)%nat then
    print ("Skipping " +:+ ambig_name)
  else
    student_name ← lift (index options ix);
    e ← lift (Dict.getitem course_roster student_name);
    print ("  " +:+ student_name +:+ " (" +:+ e +:+ ")") ;;
    apply_all student_name.

(** The matching pass (lines 254-274): the names still ambiguous when it
    ends. *)
Definition matching_pass (names : list string) : M ambig_t :=
  let roster_names := Dict.keys course_roster in
  st ← for_fold (match_name roster_names) names ([], None);
  mret (fst st).

(** [main_extend] once the arguments are parsed: the exit on an empty list
    of names (lines 239-241), then lines 249-285.  The roster, the filtered
    assignments and the number of days are those that lines 242-248 load
    from the course file, the grading platform and the arguments. *)
Definition main_extend (names : list string) : M unit :=
  if (length names =? 0)%nat then
    print "No names supplied, exiting.." ;;
    lift (Raise SystemExit)
  else
    print "Processing extensions for the following assignments: " ;;
    for_each assignments (λ assign, print ("   " +:+ get_name assign)) ;;
    print "For the following students:" ;;
    ambig_names ← matching_pass names;
    for_each ambig_names resolve_ambiguity.

End MainExtend.

(** ** The fuzzy matcher of Python's standard library

    [difflib.get_close_matches] as CPython defines it, for the concrete
    runs below: a [SequenceMatcher] with no junk predicate, the automatic
    junk heuristic for second sequences of 200 elements and more, and the
    default cutoff 0.6.  A score [2.0 * matches / length] is kept as the
    fraction [(2 * matches, length)], and two scores are compared by
    cross-multiplication.  The properties of the program are stated for any
    matcher; this one serves the concrete runs. *)

Module Difflib.

Definition zero_char : ascii := ascii_of_nat 0.

Definition score : Set := (nat * nat)%type.

(** [_calculate_ratio(matches, length)] *)
Definition calculate_ratio (matches len : nat) : score :=
  if (len =? 0)%nat then (1, 1) else (2 * matches, len).

Definition score_leb (s t : score) : bool := (s.1 * t.2 <=? t.1 * s.2)%nat.
Definition score_eqb (s t : score) : bool := (s.1 * t.2 =? t.1 * s.2)%nat.

(** The default cutoff, 0.6. *)
Definition cutoff : score := (6, 10).

Definition at_least_cutoff (s : score) : bool := score_leb cutoff s.

Section SequenceMatcher.

(** [self.a] (set by [set_seq1]) and [self.b] (set by [set_seq2]). *)
Variables a b : list ascii.

Definition count_of (c : ascii) (l : list ascii) : nat :=
  length (filter (λ x, x = c) l).

(** [__chain_b]: with [autojunk], an element of a [b] of at least 200
    elements that occurs more than [n // 100 + 1] times is popular and
    loses its entry of [b2j]. *)
Definition bpopular (c : ascii) : bool :=
  (200 <=? length b)%nat && (length b / 100 + 1 <? count_of c b)%nat.

(** [b2j.get(c, nothing)]: the positions of [c] in [b], increasing. *)
Definition b2j (c : ascii) : list nat :=
  if bpopular c then []
  else filter (λ j, b !! j = Some c) (seq 0 (length b)).

Definition best_t : Set := (nat * nat * nat)%type.

(** The inner loop of [find_longest_match] over the positions [j] of
    [a[i]] in [b]. *)
Fixpoint scan_positions (i blo bhi : nat) (j2len : gmap nat nat)
    (js : list nat) (newj2len : gmap nat nat) (best : best_t)
  : gmap nat nat * best_t :=
  match js with
  | [] => (newj2len, best)
  | j :: js' =>
      if (j <? blo)%nat then
        scan_positions i blo bhi j2len js' newj2len best
      else if (bhi <=? j)%nat then (newj2len, best)
      else
        let prev := match j with
                    | O => 0
                    | S j' => default 0 (j2len !! j')
                    end in
        let k := prev + 1 in
        let newj2len := <[j := k]> newj2len in
        let best := if (best.2 <? k)%nat then (i + 1 - k, j + 1 - k, k)
                    else best in
        scan_positions i blo bhi j2len js' newj2len best
  end.

(** The first [while] after the scan: extend the match to the left
    (no element is junk). *)
Fixpoint extend_left (fuel alo blo : nat) (best : best_t) : best_t :=
  match fuel with
  | O => best
  | S fuel' =>
      let '(besti, bestj, bestsize) := best in
      if (alo <? besti)%nat && (blo <? bestj)%nat
         && bool_decide (nth (besti - 1) a zero_char = nth (bestj - 1) b zero_char)
      then extend_left fuel' alo blo (besti - 1, bestj - 1, bestsize + 1)
      else best
  end.

(** The second [while]: extend the match to the right. *)
Fixpoint extend_right (fuel ahi bhi : nat) (best : best_t) : best_t :=
  match fuel with
  | O => best
  | S fuel' =>
      let '(besti, bestj, bestsize) := best in
      if (besti + bestsize <? ahi)%nat && (bestj + bestsize <? bhi)%nat
         && bool_decide (nth (besti + bestsize) a zero_char
                         = nth (bestj + bestsize) b zero_char)
      then extend_right fuel' ahi bhi (besti, bestj, bestsize + 1)
      else best
  end.

(** [find_longest_match(alo, ahi, blo, bhi)].  The two last loops of the
    original extend over junk only, and there is none. *)
Definition find_longest_match (alo ahi blo bhi : nat) : best_t :=
  let scanned :=
    fold_left
      (λ (st : gmap nat nat * best_t) i,
         scan_positions i blo bhi st.1 (b2j (nth i a zero_char)) ∅ st.2)
      (seq alo (ahi - alo)) (∅, (alo, blo, 0)) in
  let best := extend_left (length a) alo blo scanned.2 in
  extend_right (length a) ahi bhi best.

(** The loop of [get_matching_blocks] over its stack of ranges; at most
    [len(a) + len(b) + 1] ranges are ever taken off it. *)
Fixpoint matching_blocks_loop (fuel : nat)
    (queue : list (nat * nat * nat * nat)) (blocks : list best_t)
  : list best_t :=
  match fuel, queue with
  | S fuel', (alo, ahi, blo, bhi) :: queue' =>
      let '(i, j, k) := find_longest_match alo ahi blo bhi in
      if (k =? 0)%nat then matching_blocks_loop fuel' queue' blocks
      else
        let queue1 := if (alo <? i)%nat && (blo <? j)%nat
                      then (alo, i, blo, j) :: queue' else queue' in
        let queue2 := if (i + k <? ahi)%nat && (j + k <? bhi)%nat
                      then (i + k, ahi, j + k, bhi) :: queue1 else queue1 in
        matching_blocks_loop fuel' queue2 (blocks ++ [(i, j, k)])
  | _, _ => blocks
  end.

Definition get_matching_blocks : list best_t :=
  matching_blocks_loop (length a + length b + 1)
    [(0, length a, 0, length b)] [].

Definition ratio : score :=
  let matches := foldr (λ (x : best_t) acc, x.2 + acc) 0 get_matching_blocks in
  calculate_ratio matches (length a + length b).

(** [quick_ratio]: the size of the multiset intersection. *)
Definition quick_ratio : score :=
  let step (st : gmap ascii Z * nat) (elt : ascii) :=
    let numb := match st.1 !! elt with
                | Some n => n
                | None => Z.of_nat (count_of elt b)
                end in
    (<[elt := (numb - 1)%Z]> st.1,
     if (0 <? numb)%Z then st.2 + 1 else st.2) in
  calculate_ratio (fold_left step a (∅, 0)).2 (length a + length b).

Definition real_quick_ratio : score :=
  calculate_ratio (length a `min` length b) (length a + length b).

End SequenceMatcher.

(** The order of the pairs [(score, x)]: by score, then by string. *)
Definition pair_ltb (p q : score * string) : bool :=
  if score_eqb p.1 q.1 then String.ltb p.2 q.2
  else score_leb p.1 q.1.

(** [sorted(result, reverse=True)], by insertion. *)
Fixpoint insert_desc (p : score * string) (l : list (score * string))
  : list (score * string) :=
  match l with
  | [] => [p]
  | q :: l' => if pair_ltb p q then q :: insert_desc p l' else p :: l
  end.

(** [heapq.nlargest(n, result)] *)
Definition nlargest (n : nat) (l : list (score * string)) : list (score * string) :=
  take n (foldr insert_desc [] l).

(** [get_close_matches(word, possibilities, n)] for [n > 0]. *)
Definition get_close_matches (word : string) (possibilities : list string)
    (n : nat) : list string :=
  let b := String.list_ascii_of_string word in
  let result :=
    omap (λ x,
            let a := String.list_ascii_of_string x in
            if at_least_cutoff (real_quick_ratio a b)
               && at_least_cutoff (quick_ratio a b)
               && at_least_cutoff (ratio a b)
            then Some (ratio a b, x) else None)
         possibilities in
  (snd <$> nlargest n result).

End Difflib.

(** ** What a run leaves behind *)

(** The world after more events. *)
Definition add_out (w : world) (evs : list event) : world :=
  {| stdin := stdin w; out := out w ++ evs |}.

(** The extension operations among the events, in order. *)
Definition extension_calls (o : list event) : list (assignment * string * Z) :=
  omap (λ e, match e with
             | ApplyExtension a email days => Some (a, email, days)
             | _ => None
             end) o.

(** Every e-mail address with every assignment. *)
Definition cross_product (emails : list string) (assignments : list assignment)
    (days : Z) : list (assignment * string * Z) :=
  email ← emails; (λ a, (a, email, days)) <$> assignments.

(** What a student resolved to [email] under the name [student_name]
    leaves: the line that reports the binding and one extension per
    assignment. *)
Definition resolved_events (assignments : list assignment) (days : Z)
    (student_name email : string) : list event :=
  Print ("  " +:+ student_name +:+ " (" +:+ email +:+ ")")
  :: ((λ a, ApplyExtension a email days) <$> assignments).

(** [raw_name] resolves to [email] by an exact match: whatever the locals
    and the world, the turn of the matching loop for [raw_name] reports the
    binding of its lowercased form to [email], applies the extension for
    [email] to every assignment and queues nothing. *)
Definition exact_match (get_close_matches : string → list string → nat → list string)
    (course_roster : roster_t) (assignments : list assignment) (days : Z)
    (raw_name email : string) : Prop :=
  ∀ (ambig_names : ambig_t) (email_var : option string) (w : world),
    match_name get_close_matches course_roster assignments days
      (Dict.keys course_roster) (ambig_names, email_var) raw_name w
    = (Ok (ambig_names, Some email),
       add_out w (resolved_events assignments days (Str.lower raw_name) email)).

(** The e-mail addresses of the names the matching pass resolves: those
    whose lowercased form is a key of the roster. *)
Definition exact_emails (course_roster : roster_t) (names : list string)
  : list string :=
  omap (λ raw_name, Dict.get course_roster (Str.lower raw_name)) names.

(** The names the matching pass leaves for the ambiguity pass. *)
Definition ambiguous_names
    (get_close_matches : string → list string → nat → list string)
    (course_roster : roster_t) (names : list string) : ambig_t :=
  omap (λ raw_name,
          let student_name := Str.lower raw_name in
          if Dict.mem student_name course_roster then None
          else match get_close_matches student_name (Dict.keys course_roster) 5 with
               | [] => None
               | close_matches => Some (student_name, close_matches)
               end) names.

(** An operator's choice for one ambiguous name: none of the options, or
    one of them that the roster knows. *)
Definition valid_choice (course_roster : roster_t)
    (entry : string * list string) (choice : option string) : Prop :=
  match choice with
  | None => True
  | Some student_name =>
      student_name ∈ entry.2 ∧ is_Some (Dict.get course_roster student_name)
  end.

Definition picked_emails (course_roster : roster_t)
    (choices : list (option string)) : list string :=
  omap (λ choice : option string, choice ≫= Dict.get course_roster) choices.

(** The first candidate address that the grading platform knows. *)
Definition first_valid (valid_emails : gset string) (emails : list string)
  : option string :=
  List.find (λ e, bool_decide (e ∈ valid_emails)) emails.

Definition candidates (student : pz_user) : list string :=
  Str.split ", " (pz_email student).

(** The students of the forum none of whose addresses the grading platform
    knows, by lowercased name and in the order of the forum's list. *)
Definition unmatched_students (valid_emails : gset string)
    (students : list pz_user) : list string :=
  (λ x, Str.lower (pz_name x))
  <$> filter (λ x, first_valid valid_emails (candidates x) = None) students.

(** ** Concrete runs *)

Definition hw1 : assignment := {| assignment_id := 1; get_name := "hw1" |}.
Definition hw1_bonus : assignment := {| assignment_id := 2; get_name := "hw1 bonus" |}.

(** Nothing typed ahead, nothing emitted yet. *)
Definition quiet : world := {| stdin := []; out := [] |}.

Definition jane_roster : roster_t := [("jane doe", "jane@x.edu")].

(** The roster [read_gradescope_roster] builds for the one student
    ["Jane Doe"]. *)
Definition cased_roster : roster_t := [("Jane Doe", "jane@x.edu")].

Definition class_roster : roster_t :=
  [("jane doe", "jane@x.edu"); ("bob smith", "bob@x.edu"); ("jane roe", "roe@x.edu")].

(** A batch of three names, with the operator's answer typed ahead, and
    the world it ends in. *)
Definition batch_names : list string :=
  ["Jane Doe"; "jane oe"; "nonexistent person"].

Definition batch_start : world := {| stdin := ["1"]; out := [] |}.

Definition batch_end : world :=
  {| stdin := [];
     out := [Print "Processing extensions for the following assignments: ";
             Print "   hw1"; Print "   hw1 bonus";
             Print "For the following students:";
             Print "  jane doe (jane@x.edu)";
             ApplyExtension hw1 "jane@x.edu" 5;
             ApplyExtension hw1_bonus "jane@x.edu" 5;
             Print "jane oe: At least 2 found";
             Print "nonexistent person: could not find in the roster";
             Print "jane oe: Found the following close matches:";
             Print "Select the number for the correct student (or none if none of these names match)";
             Print "  (1) jane roe"; Print "  (2) jane doe";
             Print "  (3) (None)"; Prompt "Selection: ";
             Print "  jane roe (roe@x.edu)";
             ApplyExtension hw1 "roe@x.edu" 5;
             ApplyExtension hw1_bonus "roe@x.edu" 5] |}.

(** ** The yes/no prompt *)

(** What one answer to [yes_no_helper] decides (lines 96-102): nothing or a
    leading [n] for no, a leading [y] for yes, in either case; any other
    answer leaves [option] at [None].
<<
    option = input("(y/N): ").lower()
    if len(option) == 0 or option[0] == "n":
        option = False
    elif option[0] == "y":
        option = True
    else:
        option = None
>> *)
Definition yes_no_answer (line : string) : option bool :=
  let option := Str.lower line in
  match option with
  | EmptyString => Some false
  | String c _ =>
      if Ascii.eqb c "n" then Some false
      else if Ascii.eqb c "y" then Some true
      else None
  end.

(** The [while option is None] loop of [yes_no_helper] (lines 95-102). *)
Fixpoint yes_no_loop (lines : list string) (o : list event)
  : result bool * world :=
  let o := o ++ [Prompt "(y/N): "] in
  match lines with
  | [] => (Raise EOFError, {| stdin := []; out := o |})
  | line :: rest =>
      match yes_no_answer line with
      | Some option => (Ok option, {| stdin := rest; out := o |})
      | None => yes_no_loop rest o
      end
  end.

(** [yes_no_helper] (lines 93-103). *)
Definition yes_no_helper : M bool :=
  λ w, yes_no_loop (stdin w) (out w).

(** A line that [selection_helper] accepts for [n] options: digits, no more
    of them than [int] converts, that write a number between 1 and [n]. *)
Definition selects (n : nat) (line : string) : Prop :=
  Str.isdigit line = true
  ∧ (Z.of_nat (String.length line) ≤ Str.max_str_digits)%Z
  ∧ 1 ≤ Str.decimal line ≤ n.

(** A line of digits that [int] refuses: more of them than it converts. *)
Definition overlong (line : string) : Prop :=
  Str.isdigit line = true
  ∧ (Str.max_str_digits < Z.of_nat (String.length line))%Z.

(** A line that [selection_helper] asks again after, for [n] options: text
    in the ASCII range that is no number, or is a number that [int]
    converts and that is not between 1 and [n]. *)
Definition asks_again (n : nat) (line : string) : Prop :=
  Str.is_ascii line = true ∧ ¬ overlong line ∧ ¬ selects n line.

(** The number 1 written after 4300 zeros. *)
Definition padded_one : string :=
  String.string_of_list_ascii (repeat "0"%char 4300) +:+ "1".

(** The prompts among the events. *)
Definition is_prompt (e : event) : bool :=
  match e with Prompt _ => true | _ => false end.

Definition prompts (o : list event) : nat :=
  length (List.filter is_prompt o).

(** ** Rows of a roster file *)

(** The column [i] of a row that has it. *)
Definition col (i : nat) (entry : list string) : string :=
  default EmptyString (entry !! i).

(** A row of the grading platform's export that the builder cannot take:
    a student whose name has a comma. *)
Definition gradescope_student_with_comma (entry : list string) : bool :=
  String.eqb (col 3 entry) "Student" && Str.contains_char "," (col 0 entry).

(** What a row of the grading platform's export adds to the roster: the
    binding of a student's name, as it is written, to the e-mail address. *)
Definition gradescope_binding (r : roster_t) (entry : list string) : roster_t :=
  if String.eqb (col 3 entry) "Student"
  then Dict.set r (col 0 entry) (col 2 entry) else r.

(** A roster all of whose keys are in lower case. *)
Definition lowercase_keys (r : roster_t) : Prop :=
  ∀ k v, Dict.get r k = Some v → Str.lower k = k.

(** An export of the forum: one student in two rows, and a professor. *)
Definition piazza_rows : list (list string) :=
  [["name"; "email"; "role"];
   ["Jane Doe"; "jane@old.edu"; "Student"];
   ["Bob Smith"; "bob@x.edu"; "Professor"];
   ["JANE DOE"; "jane@x.edu"; "Student"]].

(** Two students of the forum, a teaching assistant, and the one address
    the grading platform knows. *)
Definition forum_users : list pz_user :=
  [{| pz_name := "Al Bee"; pz_email := "al@q.org"; pz_role := "student" |};
   {| pz_name := "Jane Doe"; pz_email := "jane@y.edu, jane@x.edu";
      pz_role := "student" |};
   {| pz_name := "Tee Ay"; pz_email := "jane@x.edu"; pz_role := "ta" |}].

(** ** The output of a batch *)

(** The three kinds of line that open the output of [main_extend]. *)
Definition batch_header (assignments : list assignment) : list event :=
  Print "Processing extensions for the following assignments: "
  :: ((λ a, Print ("   " +:+ get_name a)) <$> assignments)
  ++ [Print "For the following students:"].

(** The roster's entry for a name that is a key. *)
Definition entry_of (course_roster : roster_t) (student_name : string) : string :=
  default EmptyString (Dict.get course_roster student_name).

(** What the operator is shown for one ambiguous name: the name, the
    message, the numbered options with [(None)] last, and the prompt. *)
Definition ambiguity_prompt (ambig_name : string) (options : list string)
  : list event :=
  [Print (ambig_name +:+ ": Found the following close matches:");
   Print select_msg]
  ++ ((λ p, Print ("  (" +:+ pretty (p.1 + 1) +:+ ") " +:+ p.2))
      <$> enumerate (options ++ [none_option]))
  ++ [Prompt "Selection: "].

(** The possible ends of the passes of [main_extend]. *)
Definition batch_outcome (r : result ()) : Prop :=
  r = Ok () ∨ r = Raise SystemExit ∨ r = Raise IndexError ∨ r = Raise EOFError
  ∨ r = Raise ValueError.

(** ** Settings and course files

    The two kinds of TOML file the tool keeps, each as the value it holds:
    the settings, with the four keys that [initialize_settings] writes and
    the key ["default-course"] that [make_course_entry] adds, and the file
    of a course.  The disk maps the path of a file to its content; paths
    are strings.  Directories are not kept: the directory of the script
    is there, the course directory is there once line 75 has made it, and
    the tool makes no other. *)

Record settings_t : Type :=
  { course_path : string;
    courses : list string;
    default_to_newest : bool;
    default_length : Z;
    default_course : option string }.

Record course_info_t : Type :=
  { gradescope_id : string; info_roster : roster_t }.

Inductive file : Type :=
  | SettingsFile (s : settings_t)
  | CourseFile (c : course_info_t).

Inductive error : Set :=
  | Py (e : exn)
  | FileNotFoundError.

Inductive outcome (A : Type) : Type :=
  | Returns (a : A)
  | Fails (e : error).
Arguments Returns {A} a.
Arguments Fails {A} e.

Record machine : Type := { console : world; disk : gmap string file }.

Definition F (A : Type) : Type := machine → outcome A * machine.

#[global] Instance F_ret : MRet F := fun _ a mc => (Returns a, mc).
#[global] Instance F_bind : MBind F := fun _ _ f m mc =>
  match m mc with
  | (Returns a, mc') => f a mc'
  | (Fails e, mc') => (Fails e, mc')
  end.

Definition fail {A} (e : error) : F A := λ mc, (Fails e, mc).

(** A computation of the terminal, run on the machine's console. *)
Definition on_console {A} (m : M A) : F A := λ mc,
  match m (console mc) with
  | (Ok a, w') => (Returns a, {| console := w'; disk := disk mc |})
  | (Raise e, w') => (Fails (Py e), {| console := w'; disk := disk mc |})
  end.

(** [path.exists()] *)
Definition exists_file (path : string) : F bool := λ mc,
  (Returns (bool_decide (is_Some (disk mc !! path))), mc).

(** [path.write_text(tomli_w.dumps(content))] for a path whose directory
    is there. *)
Definition write_file (path : string) (content : file) : F unit := λ mc,
  (Returns (), {| console := console mc; disk := <[path := content]> (disk mc) |}).

(** [tomllib.loads(path.read_text())] up to the first look-up of a key of
    the settings, ["courses"] wherever the program loads them: a file of
    another kind has no such key. *)
Definition load_settings (path : string) : F settings_t := λ mc,
  match disk mc !! path with
  | None => (Fails FileNotFoundError, mc)
  | Some (SettingsFile s) => (Returns s, mc)
  | Some (CourseFile _) => (Fails (Py KeyError), mc)
  end.

(** [tomllib.loads(path.read_text())] up to [course_info["roster"]]
    (lines 243-244). *)
Definition load_course_info (path : string) : F course_info_t := λ mc,
  match disk mc !! path with
  | None => (Fails FileNotFoundError, mc)
  | Some (CourseFile c) => (Returns c, mc)
  | Some (SettingsFile _) => (Fails (Py KeyError), mc)
  end.

(** The arguments of [extend] as [argparse] returns them. *)
Record args_t : Type :=
  { arg_id : string; arg_names : list string; arg_days : Z; arg_string : string }.

(** The double quote, for the messages that quote an identifier. *)
Definition dquote : string := String (ascii_of_nat 34) EmptyString.

(** The settings as the tool keeps them: no course listed twice, and a
    default course that is listed. *)
Definition settings_ok (s : settings_t) : Prop :=
  NoDup (courses s) ∧ ∀ d, default_course s = Some d → d ∈ courses s.

Section Tool.

(** The directory of the script, [Path(__file__).parent]. *)
Variable tools_dir : string.

Definition settings_path : string := tools_dir +:+ "/settings.toml".

Definition default_course_path : string := tools_dir +:+ "/courses".

Definition default_settings : settings_t :=
  {| course_path := tools_dir +:+ "/courses";
     courses := [];
     default_to_newest := true;
     default_length := 5;
     default_course := None |}.

(** [initialize_settings] (lines 20-30). *)
Definition initialize_settings (settings_path : string) : F unit :=
  present ← exists_file settings_path;
  if present : bool then mret ()
  else
    on_console (print "Settings file not found, initializing to defaults.") ;;
    write_file settings_path (SettingsFile default_settings).

Definition cfg_path (course_path identifier : string) : string :=
  course_path +:+ "/" +:+ identifier +:+ ".toml".

Definition set_default_course (settings : settings_t) (identifier : string)
  : settings_t :=
  {| course_path := course_path settings;
     courses := courses settings;
     default_to_newest := default_to_newest settings;
     default_length := default_length settings;
     default_course := Some identifier |}.

(** [settings["courses"].append(identifier)] *)
Definition append_course (settings : settings_t) (identifier : string)
  : settings_t :=
  {| course_path := course_path settings;
     courses := courses settings ++ [identifier];
     default_to_newest := default_to_newest settings;
     default_length := default_length settings;
     default_course := default_course settings |}.

(** [course_dir.mkdir(exist_ok=True)] and [cfg_path.write_text(...)]
    (lines 74-82).  [write_text] creates the file and no directory.  An
    identifier without [/] names a file of the course directory, which
    line 75 has made sure of: the file is written.  An identifier with a
    [/] names a file of another directory, which is taken to be missing,
    as a directory below the course directory is when the tool has made
    the course directory: [write_text] raises [FileNotFoundError]. *)
Definition write_course_file (course_path identifier : string) (content : file)
  : F unit :=
  if Str.contains_char "/" identifier then fail FileNotFoundError
  else write_file (cfg_path course_path identifier) content.

(** [make_course_entry] (lines 68-90). *)
Definition make_course_entry (identifier gs_id : string) (roster : roster_t)
    (course_path : string) : F unit :=
  settings ← load_settings settings_path;
  settings ← (if bool_decide (identifier ∈ courses settings) then
                on_console (print ("WARNING: Course with identifier "
                                   +:+ dquote +:+ identifier +:+ dquote
                                   +:+ " already exists, overwriting")) ;;
                mret settings
              else mret (append_course settings identifier));
  write_course_file course_path identifier
    (CourseFile {| gradescope_id := gs_id; info_roster := roster |}) ;;
  settings ← (match default_course settings with
              | None =>
                  on_console (print ("No default course set, setting to "
                                     +:+ identifier +:+ ".")) ;;
                  mret (set_default_course settings identifier)
              | Some _ =>
                  if default_to_newest settings then
                    on_console (print ("Setting " +:+ identifier
                                       +:+ " to the default course.")) ;;
                    mret (set_default_course settings identifier)
                  else mret settings
              end);
  write_file settings_path (SettingsFile settings).

(** The collaborators of [main]: the interactive setup as a whole, the
    body that [main_configure] is still to get, [argparse] (with the
    choices and the defaults it is given) and the grading platform, from
    the log-in with the credentials of the environment to the list of the
    assignments of a course whose title has the string (lines 246-248). *)
Variable interactive_setup : F unit.
Variable main_configure : F unit.
Variable parse_args : list string → string → Z → list string → outcome args_t.
Variable get_assignments : string → string → outcome (list assignment).
Variable get_close_matches : string → list string → nat → list string.

Definition of_outcome {A} (r : outcome A) : F A := λ mc, (r, mc).

(** [main_extend(argv)] as a whole (lines 228-285), with the global
    [settings] as [main] has loaded them: the parser is built from
    [settings["courses"]], [settings["default-course"]] and
    [settings["default-length"]], the course file is read under
    [settings["course_path"]], and the passes run on its roster. *)
Definition main_extend_argv (settings : settings_t) (argv : list string)
  : F unit :=
  let choices := courses settings in
  default_id ← (match default_course settings with
                | Some identifier => mret identifier
                | None => fail (Py KeyError)
                end);
  args ← of_outcome (parse_args choices default_id (default_length settings) argv);
  (if (length (arg_names args) =? 0)%nat then
     on_console (print "No names supplied, exiting..") ;;
     fail (Py SystemExit)
   else mret ()) ;;
  course_info ← load_course_info (cfg_path (course_path settings) (arg_id args));
  assignments ← of_outcome (get_assignments (gradescope_id course_info)
                              (arg_string args));
  on_console (main_extend get_close_matches (info_roster course_info)
                assignments (arg_days args) (arg_names args)).

(** [main] (lines 201-221) for the command line [argv]. *)
Definition main (argv : list string) : F unit :=
  present ← exists_file settings_path;
  (if present : bool then mret ()
   else
     on_console (print "No settings found, initializing settings file") ;;
     initialize_settings settings_path) ;;
  settings ← load_settings settings_path;
  (if (length (courses settings) =? 0)%nat then
     on_console (print "No courses found, entering setup..") ;;
     interactive_setup
   else mret ()) ;;
  if (1 <? length argv)%nat then
    match argv !! 1 with
    | Some command =>
        if String.eqb command "extend" then
          main_extend_argv settings (drop 2 argv)
        else if String.eqb command "configure" then main_configure
        else on_console (print "Right now extend is the only command.")
    | None => fail (Py IndexError)
    end
  else
    on_console (print "Supply a command followed by arguments (e.g. ./gs-tools.py extend -s hw1 student1)").

End Tool.

(** What [make_course_entry] leaves in the settings. *)
Definition settings_after (s : settings_t) (identifier : string) : settings_t :=
  {| course_path := course_path s;
     courses := if bool_decide (identifier ∈ courses s) then courses s
                else courses s ++ [identifier];
     default_to_newest := default_to_newest s;
     default_length := default_length s;
     default_course := match default_course s with
                       | None => Some identifier
                       | Some d => if default_to_newest s then Some identifier
                                   else Some d
                       end |}.

(** A machine with nothing on disk and a quiet console, and the setup of a
    first course as [interactive_setup] ends it. *)
Definition fresh_machine : machine := {| console := quiet; disk := ∅ |}.

(** The machine after [initialize_settings] alone. *)
Definition settled_machine : machine :=
  {| console := quiet;
     disk := {[ settings_path "/opt/ta" := SettingsFile (default_settings "/opt/ta") ]} |}.

(** A machine where the file of a course lies at the path of the
    settings. *)
Definition misplaced_machine : machine :=
  {| console := quiet;
     disk := {[ settings_path "/opt/ta" :=
                  CourseFile {| gradescope_id := "987"; info_roster := jane_roster |} ]} |}.

Definition setup_cs101 : F unit :=
  make_course_entry "/opt/ta" "cs101" "987" jane_roster
    (default_course_path "/opt/ta").

(** What [main] has printed and written on a first run when it enters the
    setup: the settings are the defaults. *)
Definition machine_before_setup (tools_dir : string) (mc : machine) : machine :=
  {| console := add_out (console mc)
                  [Print "No settings found, initializing settings file";
                   Print "Settings file not found, initializing to defaults.";
                   Print "No courses found, entering setup.."];
     disk := <[settings_path tools_dir := SettingsFile (default_settings tools_dir)]>
               (disk mc) |}.

(** A command line for [extend], and an [argparse] that takes the last
    word as the one name and the defaults for the rest. *)
Definition extend_jane : list string :=
  ["gs-tools.py"; "extend"; "-s"; "hw1"; "Jane Doe"].

Definition parse_last_name (choices : list string) (default_id : string)
    (default_days : Z) (argv : list string) : outcome args_t :=
  match last argv with
  | Some name =>
      Returns {| arg_id := default_id; arg_names := [name];
                 arg_days := default_days; arg_string := "hw1" |}
  | None => Fails (Py SystemExit)
  end.

Definition one_assignment (course_id title : string)
  : outcome (list assignment) := Returns [hw1].

(** The machine after the setup of the course [cs101]. *)
Definition configured_machine : machine :=
  {| console := quiet;
     disk := <[settings_path "/opt/ta" :=
                 SettingsFile (settings_after (default_settings "/opt/ta") "cs101")]>
               (<[cfg_path (default_course_path "/opt/ta") "cs101" :=
                    CourseFile {| gradescope_id := "987"; info_roster := jane_roster |}]>
                  ∅) |}.

(** ** Choosing the identifier of a course *)

Definition identifier_prompt : string :=
  Str.nl +:+ "Enter an identifier to use for this course, no spaces:" +:+ Str.nl.

Definition overwrite_question (identifier : string) : string :=
  "Course with identifier " +:+ dquote +:+ identifier +:+ dquote
  +:+ " already exists, do you want to overwrite it?".

(** The loop of [interactive_setup] that asks for the identifier (lines
    189-198), over the lines of the input.  [pending] is [None] at the top
    of the loop and [Some identifier] inside the call of [yes_no_helper]
    about overwriting [identifier], whose prompt loop is unrolled here.
<<
    identifier = None
    while identifier is None:
        identifier = input("\nEnter an identifier ...:\n").strip()
        if len(identifier) == 0 or " " in identifier:
            identifier = None
            continue
        if identifier in settings["courses"]:
            print(f"Course with identifier \"{identifier}\" already exists, ...")
            if not yes_no_helper():
                identifier = None
>> *)
Fixpoint identifier_loop (known : list string) (pending : option string)
    (lines : list string) (o : list event) : result string * world :=
  match pending with
  | None =>
      let o := o ++ [Prompt identifier_prompt] in
      match lines with
      | [] => (Raise EOFError, {| stdin := []; out := o |})
      | line :: rest =>
          let identifier := Str.strip line in
          if (String.length identifier =? 0)%nat
             || Str.contains_char " " identifier
          then identifier_loop known None rest o
          else if bool_decide (identifier ∈ known) then
            identifier_loop known (Some identifier) rest
              (o ++ [Print (overwrite_question identifier)])
          else (Ok identifier, {| stdin := rest; out := o |})
      end
  | Some identifier =>
      let o := o ++ [Prompt "(y/N): "] in
      match lines with
      | [] => (Raise EOFError, {| stdin := []; out := o |})
      | line :: rest =>
          match yes_no_answer line with
          | Some true => (Ok identifier, {| stdin := rest; out := o |})
          | Some false => identifier_loop known None rest o
          | None => identifier_loop known (Some identifier) rest o
          end
      end
  end.

(** The identifier that the setup passes to [make_course_entry], asked for
    against the courses of the settings. *)
Definition choose_identifier (known : list string) : M string :=
  λ w, identifier_loop known None (stdin w) (out w).

(** * Properties *)

(** ** Splitting at commas *)

Lemma prefix_comma (c : ascii) (s : string) :
  String.prefix "," (String c s) = Ascii.eqb "," c.
Proof.
  cbn [String.prefix]. destruct (ascii_dec "," c) as [<-|Hne].
  - by destruct s.
  - symmetry. by apply Ascii.eqb_neq.
Qed.

Lemma append_empty_r (s : string) : s +:+ EmptyString = s.
Proof. induction s as [|c s IH]; [done|]. rewrite <-IH at 2. reflexivity. Qed.

Lemma append_assoc (s1 s2 s3 : string) :
  (s1 +:+ s2) +:+ s3 = s1 +:+ (s2 +:+ s3).
Proof.
  induction s1 as [|c s1 IH]; [done|].
  change (String c ((s1 +:+ s2) +:+ s3) = String c (s1 +:+ (s2 +:+ s3))).
  by rewrite IH.
Qed.

Lemma append_snoc (cur : string) (c : ascii) (s : string) :
  (cur +:+ String c EmptyString) +:+ s = cur +:+ String c s.
Proof.
  induction cur as [|d cur IH]; [done|].
  change (String d ((cur +:+ String c "") +:+ s) = String d (cur +:+ String c s)).
  by rewrite IH.
Qed.

Lemma contains_char_cons (c d : ascii) (s : string) :
  Str.contains_char c (String d s) = Ascii.eqb c d || Str.contains_char c s.
Proof. reflexivity. Qed.

Lemma split_from_no_comma (cur s : string) :
  Str.contains_char "," s = false →
  Str.split_from "," 0 cur s = [cur +:+ s].
Proof.
  revert cur. induction s as [|c s IH]; intros cur Hc.
  - cbn. by rewrite append_empty_r.
  - rewrite contains_char_cons in Hc. apply orb_false_iff in Hc as [Hc1 Hc2].
    cbn [Str.split_from]. rewrite prefix_comma, Hc1.
    rewrite IH by exact Hc2. by rewrite append_snoc.
Qed.

Lemma split_from_nonempty (sep : string) (skip : nat) (cur s : string) :
  1 ≤ length (Str.split_from sep skip cur s).
Proof.
  revert skip cur. induction s as [|c s IH]; intros skip cur; cbn [Str.split_from].
  - cbn [length]. lia.
  - destruct skip; [|apply IH].
    destruct (String.prefix sep (String c s)); [cbn [length]; lia|apply IH].
Qed.

Lemma split_from_comma_length (cur s : string) :
  Str.contains_char "," s = true →
  2 ≤ length (Str.split_from "," 0 cur s).
Proof.
  revert cur. induction s as [|c s IH]; intros cur Hc; [done|].
  rewrite contains_char_cons in Hc.
  cbn [Str.split_from]. rewrite prefix_comma.
  destruct (Ascii.eqb "," c) eqn:Heq.
  - change (String.length "," - 1) with 0.
    pose proof (split_from_nonempty "," 0 EmptyString s). cbn [length]. lia.
  - apply IH. exact Hc.
Qed.

(** ** The name normaliser *)

(** C2 (the code departs from it).  [normalize_name] returns ["Jane Doe"]
    unchanged for the input without a comma, but for ["Doe, Jane"] it never
    reaches the rewriting into ["Jane Doe"]: the [elif] reads the local
    [name] before it is bound and the call raises [UnboundLocalError]. *)
Theorem normalize_name_last_first_raises :
  normalize_name "Doe, Jane" = Raise UnboundLocalError
  ∧ swap_parts (Str.split "," "Doe, Jane") = Ok "Jane Doe"
  ∧ normalize_name "Jane Doe" = Ok "Jane Doe".
Proof. repeat split; vm_compute; reflexivity. Qed.

(** C3 (the code departs from it).  [normalize_name] is a function of its
    argument alone, but it is not total: it returns its argument when that
    has no comma and raises [UnboundLocalError] on every string with a
    comma. *)
Theorem normalize_name_raises_iff_comma (name_str : string) :
  normalize_name name_str =
    if Str.contains_char "," name_str then Raise UnboundLocalError
    else Ok name_str.
Proof.
  unfold normalize_name, Str.split.
  destruct (Str.contains_char "," name_str) eqn:Hc.
  - pose proof (split_from_comma_length EmptyString name_str Hc) as Hlen.
    destruct (Nat.eqb_spec (length (Str.split_from "," 0 EmptyString name_str)) 1);
      [lia|reflexivity].
  - by rewrite split_from_no_comma.
Qed.

(** ** Running in [M] *)

Lemma add_out_nil (w : world) : add_out w [] = w.
Proof. destruct w as [i o]. unfold add_out. cbn. by rewrite app_nil_r. Qed.

Lemma add_out_app (w : world) (l1 l2 : list event) :
  add_out (add_out w l1) l2 = add_out w (l1 ++ l2).
Proof. unfold add_out. cbn. by rewrite app_assoc. Qed.

Lemma bind_run {A B} (m : M A) (f : A → M B) (w : world) :
  (m ≫= f) w = match m w with
               | (Ok a, w') => f a w'
               | (Raise e, w') => (Raise e, w')
               end.
Proof. reflexivity. Qed.

Lemma lift_ok_bind {A B} (a : A) (f : A → M B) (w : world) :
  (lift (Ok a) ≫= f) w = f a w.
Proof. reflexivity. Qed.

Lemma lift_raise_bind {A B} (e : exn) (f : A → M B) (w : world) :
  (lift (Raise e) ≫= f) w = (Raise e, w).
Proof. reflexivity. Qed.

Lemma mret_run {A} (a : A) (w : world) : (mret a : M A) w = (Ok a, w).
Proof. reflexivity. Qed.

Lemma emit_run (e : event) (w : world) : emit e w = (Ok (), add_out w [e]).
Proof. reflexivity. Qed.

Lemma print_run (line : string) (w : world) :
  print line w = (Ok (), add_out w [Print line]).
Proof. reflexivity. Qed.

Lemma print_bind {B} (line : string) (f : () → M B) (w : world) :
  (print line ≫= f) w = f () (add_out w [Print line]).
Proof. reflexivity. Qed.

Lemma bind_ok_run {A B} (m : M A) (f : A → M B) (w w' : world) (a : A) :
  m w = (Ok a, w') → (m ≫= f) w = f a w'.
Proof. intros H. by rewrite bind_run, H. Qed.

Lemma bind_raise_run {A B} (m : M A) (f : A → M B) (w w' : world) (e : exn) :
  m w = (Raise e, w') → (m ≫= f) w = (Raise e, w').
Proof. intros H. by rewrite bind_run, H. Qed.

Lemma for_each_print_run {A} (l : list A) (body : A → M ()) (text : A → string)
    (w : world) :
  (∀ x, body x = print (text x)) →
  for_each l body w = (Ok (), add_out w ((λ x, Print (text x)) <$> l)).
Proof.
  intros Hbody. revert w. induction l as [|x l IH]; intros w; cbn [for_each].
  - by rewrite fmap_nil, add_out_nil.
  - rewrite Hbody, print_bind, IH, add_out_app. reflexivity.
Qed.

Lemma extension_calls_app (o1 o2 : list event) :
  extension_calls (o1 ++ o2) = extension_calls o1 ++ extension_calls o2.
Proof. apply omap_app. Qed.

Lemma extension_calls_applied (assignments : list assignment) (email : string)
    (days : Z) :
  extension_calls ((λ a, ApplyExtension a email days) <$> assignments)
  = (λ a, (a, email, days)) <$> assignments.
Proof. induction assignments as [|a l IH]; [done|]. cbn. by rewrite <-IH. Qed.

(** ** The roster from a grading-platform export *)

(** C5 (the code departs from it).  On the export of the claim the builder
    does not yield a roster: the first data row is a student whose name has
    a comma, and [normalize_name] raises on it.  The rest of the claim is
    what the loop does: a row whose role is not ["Student"] leaves the
    roster as it is, and with the names spelled without a comma the same
    export yields exactly the one binding of the student. *)
Theorem read_gradescope_roster_claimed_export (header : list string) :
  read_gradescope_roster
    [header; ["Doe, Jane"; "S1"; "jane@x.edu"; "Student"];
             ["Smith, Bob"; "S2"; "bob@x.edu"; "TA"]]
  = Raise UnboundLocalError
  ∧ read_gradescope_roster
      [header; ["Jane Doe"; "S1"; "jane@x.edu"; "Student"];
               ["Bob Smith"; "S2"; "bob@x.edu"; "TA"]]
    = Ok [("Jane Doe", "jane@x.edu")]
  ∧ ∀ (r : roster_t) (entry : list string) (role : string),
      entry !! 3 = Some role → role ≠ "Student" →
      gradescope_entry r entry = Ok r.
Proof.
  split; [|split]; [vm_compute; reflexivity ..|].
  intros r entry role Hrole Hne. unfold gradescope_entry, index.
  rewrite Hrole. cbn. by apply String.eqb_neq in Hne as ->.
Qed.

(** ** The selection helper *)

(** C9.  With no option to choose from, [selection_helper] raises
    [ValueError] whatever the prompt: the message is printed, the maximum
    over the empty sequence fails, and no line of the input is read. *)
Theorem selection_helper_empty_raises :
  ∀ (msg : string) (w : world),
    selection_helper [] msg w = (Raise ValueError, add_out w [Print msg]).
Proof. reflexivity. Qed.

(** ** The matching pass *)

Section Matching.

Variable get_close_matches : string → list string → nat → list string.
Variable course_roster : roster_t.
Variable assignments : list assignment.
Variable days : Z.

Local Abbreviation match1 :=
  (match_name get_close_matches course_roster assignments days).
Local Abbreviation apply1 := (apply_all course_roster assignments days).

Lemma apply_all_run (student_name email : string) (w : world) :
  Dict.get course_roster student_name = Some email →
  apply1 student_name w
  = (Ok (), add_out w ((λ a, ApplyExtension a email days) <$> assignments)).
Proof.
  intros Hget. unfold apply_all, Dict.getitem. rewrite Hget.
  revert w. induction assignments as [|a l IH]; intros w; cbn [for_each].
  - by rewrite fmap_nil, add_out_nil.
  - rewrite bind_run, lift_ok_bind. unfold apply_extension. rewrite emit_run.
    by rewrite IH, add_out_app.
Qed.

Lemma mem_get_true (k v : string) :
  Dict.get course_roster k = Some v → Dict.mem k course_roster = true.
Proof. unfold Dict.mem. by intros ->. Qed.

(** A name whose lowercased form is a key: the [else] branch of line 270. *)
Lemma match_name_exact (roster_names : list string) (ambig_names : ambig_t)
    (email : option string) (raw_name e : string) (w : world) :
  Dict.get course_roster (Str.lower raw_name) = Some e →
  match1 roster_names (ambig_names, email) raw_name w
  = (Ok (ambig_names, Some e),
     add_out w (resolved_events assignments days (Str.lower raw_name) e)).
Proof.
  intros Hget. unfold match_name.
  rewrite (mem_get_true _ _ Hget). cbn [negb].
  unfold Dict.getitem. rewrite Hget.
  rewrite lift_ok_bind. cbn [read_local]. rewrite lift_ok_bind, print_bind.
  rewrite (bind_ok_run _ _ _ _ _ (apply_all_run _ _ _ Hget)).
  rewrite mret_run, add_out_app. reflexivity.
Qed.

(** No key and no close match: lines 263-265. *)
Lemma match_name_not_found (roster_names : list string) (ambig_names : ambig_t)
    (email : option string) (raw_name : string) (w : world) :
  Dict.mem (Str.lower raw_name) course_roster = false →
  get_close_matches (Str.lower raw_name) roster_names 5 = [] →
  match1 roster_names (ambig_names, email) raw_name w
  = (Ok (ambig_names, email),
     add_out w [Print (Str.lower raw_name +:+ ": could not find in the roster")]).
Proof.
  intros Hmem Hcm. unfold match_name. rewrite Hmem, Hcm. reflexivity.
Qed.

(** No key and one close match: line 262 indexes the one-element list at 1. *)
Lemma match_name_single (roster_names : list string) (st : ambig_t * option string)
    (raw_name c : string) (w : world) :
  Dict.mem (Str.lower raw_name) course_roster = false →
  get_close_matches (Str.lower raw_name) roster_names 5 = [c] →
  match1 roster_names st raw_name w = (Raise IndexError, w).
Proof.
  intros Hmem Hcm. destruct st as [ambig_names email].
  unfold match_name. rewrite Hmem, Hcm. reflexivity.
Qed.

(** No key and two close matches or more: lines 266-269. *)
Lemma match_name_several (roster_names : list string) (ambig_names : ambig_t)
    (email : option string) (raw_name : string) (w : world) :
  Dict.mem (Str.lower raw_name) course_roster = false →
  2 ≤ length (get_close_matches (Str.lower raw_name) roster_names 5) →
  match1 roster_names (ambig_names, email) raw_name w
  = (Ok (ambig_names
         ++ [(Str.lower raw_name,
              get_close_matches (Str.lower raw_name) roster_names 5)], email),
     add_out w [Print (Str.lower raw_name +:+ ": At least "
                       +:+ pretty (length (get_close_matches (Str.lower raw_name)
                                             roster_names 5))
                       +:+ " found")]).
Proof.
  intros Hmem Hlen. unfold match_name. rewrite Hmem. cbn [negb].
  destruct (get_close_matches (Str.lower raw_name) roster_names 5)
    as [|c1 [|c2 cm]] eqn:Hcm; cbn [length] in Hlen; [lia..|].
  reflexivity.
Qed.

(** Without the key there is no exact match, whatever the matcher answers. *)
Lemma no_key_no_exact_match (raw_name email : string) :
  Dict.mem (Str.lower raw_name) course_roster = false →
  ¬ exact_match get_close_matches course_roster assignments days raw_name email.
Proof.
  intros Hmem Hexact. specialize (Hexact [] None quiet).
  destruct (get_close_matches (Str.lower raw_name) (Dict.keys course_roster) 5)
    as [|c1 [|c2 cm]] eqn:Hcm.
  - rewrite (match_name_not_found _ _ _ _ _ Hmem Hcm) in Hexact.
    discriminate Hexact.
  - rewrite (match_name_single _ _ _ c1 _ Hmem Hcm) in Hexact.
    discriminate Hexact.
  - rewrite match_name_several in Hexact;
      [|exact Hmem|rewrite Hcm; cbn [length]; lia].
    rewrite Hcm in Hexact. injection Hexact as Hqueue _ _.
    discriminate Hqueue.
Qed.

End Matching.

(** C1 (the code departs from it).  A name that is no key of the roster and
    has exactly one close match is not resolved to that match: line 262
    reads [close_matches[1]] of the one-element list, and the matching pass
    stops with [IndexError] before anything is reported or applied. *)
Theorem unique_close_match_raises
    (get_close_matches : string → list string → nat → list string)
    (course_roster : roster_t) (assignments : list assignment) (days : Z)
    (raw_name c : string) (rest : list string) (w : world) :
  Dict.mem (Str.lower raw_name) course_roster = false →
  get_close_matches (Str.lower raw_name) (Dict.keys course_roster) 5 = [c] →
  matching_pass get_close_matches course_roster assignments days
    (raw_name :: rest) w
  = (Raise IndexError, w).
Proof.
  intros Hmem Hcm. unfold matching_pass. cbn [for_fold].
  apply bind_raise_run, bind_raise_run.
  by apply match_name_single with (c := c).
Qed.

(** The run of C1's failing input: the roster of one student and a name one
    letter short of hers. *)
Lemma unique_close_match_raises_witness :
  Dict.mem (Str.lower "jane do") jane_roster = false
  ∧ Difflib.get_close_matches (Str.lower "jane do") (Dict.keys jane_roster) 5
    = ["jane doe"]
  ∧ matching_pass Difflib.get_close_matches jane_roster [hw1] 5 ["jane do"] quiet
    = (Raise IndexError, quiet).
Proof.
  split; [vm_compute; reflexivity|]. split; [vm_compute; reflexivity|].
  apply (unique_close_match_raises Difflib.get_close_matches jane_roster [hw1] 5
           "jane do" "jane doe" [] quiet); vm_compute; reflexivity.
Defined.

(** C4.  The matcher lowercases the query and looks it up among the keys
    as they are stored; [read_gradescope_roster] stores the names in the
    case of the export, where [read_piazza_roster] lowercases them.  On
    the roster that [read_gradescope_roster] builds for the student
    ["Jane Doe"], the query ["Jane Doe"], a key of the roster, is no key
    once it is lowercased: it is handed to the fuzzy matcher, whose one
    close match ends the turn in [IndexError], and it is no exact match.
    On the roster that [read_piazza_roster] builds for the same student
    the same query is an exact match. *)
Theorem exact_match_of_cased_key_fails :
  read_gradescope_roster
    [["Name"; "SID"; "Email"; "Role"]; ["Jane Doe"; "S1"; "jane@x.edu"; "Student"]]
  = Ok cased_roster
  ∧ Dict.get cased_roster "Jane Doe" = Some "jane@x.edu"
  ∧ match_name Difflib.get_close_matches cased_roster [hw1] 5
      (Dict.keys cased_roster) ([], None) "Jane Doe" quiet
    = (Raise IndexError, quiet)
  ∧ ¬ exact_match Difflib.get_close_matches cased_roster [hw1] 5
        "Jane Doe" "jane@x.edu"
  ∧ read_piazza_roster
      [["Name"; "Email"; "Role"]; ["Jane Doe"; "jane@x.edu"; "Student"]]
    = Ok jane_roster
  ∧ exact_match Difflib.get_close_matches jane_roster [hw1] 5
      "Jane Doe" "jane@x.edu".
Proof.
  split; [vm_compute; reflexivity|]. split; [reflexivity|].
  split; [vm_compute; reflexivity|].
  split; [apply no_key_no_exact_match; vm_compute; reflexivity|].
  split; [vm_compute; reflexivity|].
  intros ambig_names email_var w. by apply match_name_exact.
Qed.

(** Where the keys of the roster are in lower case, as [read_piazza_roster]
    and the forum membership give them: for every key [k] in lower case, a
    query that differs from [k] in letter case only is an exact match bound
    to the roster's entry for [k], whatever the fuzzy matcher. *)
Lemma exact_match_of_lowercase_key
    (get_close_matches : string → list string → nat → list string)
    (course_roster : roster_t) (assignments : list assignment) (days : Z)
    (k query email : string) :
  Dict.get course_roster k = Some email →
  Str.lower k = k →
  Str.lower query = Str.lower k →
  exact_match get_close_matches course_roster assignments days query email.
Proof.
  intros Hget Hk Hq ambig_names email_var w.
  apply match_name_exact. by rewrite Hq, Hk.
Qed.

(** A query in mixed case against the lowercased key of the roster. *)
Lemma exact_match_of_lowercase_key_witness :
  Dict.get jane_roster "jane doe" = Some "jane@x.edu"
  ∧ Str.lower "jane doe" = "jane doe"
  ∧ Str.lower "Jane DOE" = Str.lower "jane doe"
  ∧ exact_match Difflib.get_close_matches jane_roster [hw1; hw1_bonus] 5
      "Jane DOE" "jane@x.edu".
Proof.
  repeat (split; [reflexivity|]).
  apply (exact_match_of_lowercase_key Difflib.get_close_matches jane_roster
           [hw1; hw1_bonus] 5 "jane doe" "Jane DOE" "jane@x.edu"); reflexivity.
Defined.

(** C7.  A name that is no key of the roster and has no close match is
    reported as not found on a line of its own; its turn makes no extension
    call and queues nothing for the ambiguity pass, and the loop goes on
    with the names that follow. *)
Theorem not_found_reported_batch_continues
    (get_close_matches : string → list string → nat → list string)
    (course_roster : roster_t) (assignments : list assignment) (days : Z)
    (raw_name : string) (rest : list string)
    (ambig_names : ambig_t) (email_var : option string) (w : world) :
  Dict.mem (Str.lower raw_name) course_roster = false →
  get_close_matches (Str.lower raw_name) (Dict.keys course_roster) 5 = [] →
  match_name get_close_matches course_roster assignments days
    (Dict.keys course_roster) (ambig_names, email_var) raw_name w
  = (Ok (ambig_names, email_var),
     add_out w [Print (Str.lower raw_name +:+ ": could not find in the roster")])
  ∧ extension_calls
      (out (add_out w [Print (Str.lower raw_name +:+ ": could not find in the roster")]))
    = extension_calls (out w)
  ∧ for_fold (match_name get_close_matches course_roster assignments days
                (Dict.keys course_roster))
      (raw_name :: rest) (ambig_names, email_var) w
    = for_fold (match_name get_close_matches course_roster assignments days
                  (Dict.keys course_roster))
        rest (ambig_names, email_var)
        (add_out w [Print (Str.lower raw_name +:+ ": could not find in the roster")]).
Proof.
  intros Hmem Hcm.
  pose proof (match_name_not_found get_close_matches course_roster assignments
                days _ ambig_names email_var _ w Hmem Hcm) as Hstep.
  split; [exact Hstep|]. split.
  - cbn [add_out out]. rewrite extension_calls_app. cbn. by rewrite app_nil_r.
  - cbn [for_fold]. by rewrite (bind_ok_run _ _ _ _ _ Hstep).
Qed.

(** The names ["nonexistent person"] and ["jane doe"] against the roster of
    one student: one name reported as not found, then the exact match
    applied to both assignments. *)
Lemma not_found_reported_batch_continues_witness :
  Dict.mem (Str.lower "nonexistent person") jane_roster = false
  ∧ Difflib.get_close_matches (Str.lower "nonexistent person")
      (Dict.keys jane_roster) 5 = []
  ∧ main_extend Difflib.get_close_matches jane_roster [hw1; hw1_bonus] 5
      ["nonexistent person"; "jane doe"] quiet
    = (Ok (),
       add_out quiet
         [Print "Processing extensions for the following assignments: ";
          Print "   hw1"; Print "   hw1 bonus";
          Print "For the following students:";
          Print "nonexistent person: could not find in the roster";
          Print "  jane doe (jane@x.edu)";
          ApplyExtension hw1 "jane@x.edu" 5;
          ApplyExtension hw1_bonus "jane@x.edu" 5])
  ∧ for_fold (match_name Difflib.get_close_matches jane_roster [hw1; hw1_bonus] 5
                (Dict.keys jane_roster))
      ["nonexistent person"; "jane doe"] ([], None) quiet
    = for_fold (match_name Difflib.get_close_matches jane_roster [hw1; hw1_bonus] 5
                  (Dict.keys jane_roster))
        ["jane doe"] ([], None)
        (add_out quiet [Print "nonexistent person: could not find in the roster"]).
Proof.
  split; [vm_compute; reflexivity|]. split; [vm_compute; reflexivity|].
  split; [vm_compute; reflexivity|].
  apply (not_found_reported_batch_continues Difflib.get_close_matches jane_roster
           [hw1; hw1_bonus] 5 "nonexistent person" ["jane doe"] [] None quiet);
    vm_compute; reflexivity.
Defined.

(** ** The roster from the forum membership *)

Lemma get_set_eq {V} (d : Dict.dict V) (k : string) (v : V) :
  Dict.get (Dict.set d k v) k = Some v.
Proof.
  induction d as [|[k' v'] d IH]; cbn.
  - by rewrite String.eqb_refl.
  - destruct (String.eqb k k') eqn:Heq; cbn; by rewrite Heq.
Qed.

Lemma get_set_ne {V} (d : Dict.dict V) (k k' : string) (v : V) :
  k ≠ k' → Dict.get (Dict.set d k v) k' = Dict.get d k'.
Proof.
  intros Hne. induction d as [|[k0 v0] d IH]; cbn.
  - by apply not_eq_sym, String.eqb_neq in Hne as ->.
  - destruct (String.eqb k k0) eqn:Heq; cbn.
    + apply String.eqb_eq in Heq as <-.
      by apply not_eq_sym, String.eqb_neq in Hne as ->.
    + by rewrite IH.
Qed.

Lemma first_valid_elem (valid_emails : gset string) (emails : list string)
    (e : string) :
  first_valid valid_emails emails = Some e → e ∈ valid_emails.
Proof.
  intros [_ Hin]%List.find_some. by apply bool_decide_eq_true in Hin.
Qed.

(** The inner loop against [first_valid]: when it has found an address, the
    loop variable holds that very address. *)
Lemma scan_emails_first_valid (valid_emails : gset string)
    (emails : list string) (email : option string) :
  scan_emails valid_emails emails None email
  = match first_valid valid_emails emails with
    | Some e => (Some e, Some e)
    | None => (None, from_option Some email (last emails))
    end.
Proof.
  revert email. induction emails as [|e rest IH]; intros email; [done|].
  unfold first_valid. cbn [scan_emails List.find].
  destruct (bool_decide (e ∈ valid_emails)); [done|].
  rewrite IH. unfold first_valid.
  destruct (List.find _ rest); [done|].
  destruct rest as [|r rest']; [done|].
  change (last (e :: r :: rest')) with (last (r :: rest')).
  destruct (last (r :: rest')) eqn:Hlast; [done|]. by apply last_None in Hlast.
Qed.

Lemma setup_student_first_valid (valid_emails : gset string)
    (st : setup_locals) (student : pz_user) :
  setup_student valid_emails st student
  = Ok match first_valid valid_emails (candidates student) with
       | Some e =>
           {| roster := Dict.set (roster st) (Str.lower (pz_name student)) e;
              sans_emails := sans_emails st;
              email_var := Some e |}
       | None =>
           {| roster := roster st;
              sans_emails := sans_emails st ++ [Str.lower (pz_name student)];
              email_var := from_option Some (email_var st)
                             (last (candidates student)) |}
       end.
Proof.
  unfold setup_student. fold (candidates student).
  rewrite scan_emails_first_valid.
  by destruct (first_valid valid_emails (candidates student)).
Qed.

(** The loop over the students never raises; it collects the unmatched
    students and keeps every stored address among the valid ones. *)
Lemma setup_loop_total (valid_emails : gset string) (students : list pz_user)
    (st : setup_locals) :
  ∃ st', foldM (setup_student valid_emails) students st = Ok st'
    ∧ sans_emails st'
      = sans_emails st ++ unmatched_students valid_emails students
    ∧ ((∀ k v, Dict.get (roster st) k = Some v → v ∈ valid_emails) →
       ∀ k v, Dict.get (roster st') k = Some v → v ∈ valid_emails).
Proof.
  revert st. induction students as [|x students IH]; intros st.
  - exists st. unfold unmatched_students. cbn. by rewrite app_nil_r.
  - cbn [foldM]. rewrite setup_student_first_valid.
    unfold unmatched_students. rewrite filter_cons.
    destruct (first_valid valid_emails (candidates x)) as [e|] eqn:Hfv.
    + destruct (IH {| roster := Dict.set (roster st) (Str.lower (pz_name x)) e;
                      sans_emails := sans_emails st;
                      email_var := Some e |}) as (st' & Hrun & Hsans & Hinv).
      exists st'. split; [exact Hrun|]. split.
      * rewrite Hsans. cbn [sans_emails]. by rewrite decide_False.
      * intros Hst. apply Hinv. cbn [roster]. intros k v.
        destruct (decide (Str.lower (pz_name x) = k)) as [<-|Hne].
        -- rewrite get_set_eq. intros [= <-]. by eapply first_valid_elem.
        -- rewrite get_set_ne by done. apply Hst.
    + destruct (IH {| roster := roster st;
                      sans_emails := sans_emails st ++ [Str.lower (pz_name x)];
                      email_var := from_option Some (email_var st)
                                     (last (candidates x)) |})
        as (st' & Hrun & Hsans & Hinv).
      exists st'. split; [exact Hrun|]. split.
      * rewrite Hsans. cbn [sans_emails]. rewrite decide_True by done.
        by rewrite fmap_cons, <-app_assoc.
      * exact Hinv.
Qed.

Lemma interactive_setup_roster_run (all_users : list pz_user)
    (gs_emails : list string) (w : world) :
  ∃ st,
    foldM (setup_student (list_to_set gs_emails))
      (filter (λ x, pz_role x = "student") all_users) no_locals = Ok st
    ∧ sans_emails st
      = unmatched_students (list_to_set gs_emails)
          (filter (λ x, pz_role x = "student") all_users)
    ∧ (∀ k v, Dict.get (roster st) k = Some v
              → v ∈ (list_to_set gs_emails : gset string))
    ∧ interactive_setup_roster all_users gs_emails w
      = (Ok (roster st),
         add_out w match sans_emails st with
                   | [] => []
                   | _ => [Print (sans_emails_warning (sans_emails st))]
                   end).
Proof.
  destruct (setup_loop_total (list_to_set gs_emails)
              (filter (λ x, pz_role x = "student") all_users) no_locals)
    as (st & Hrun & Hsans & Hinv).
  exists st. split; [exact Hrun|]. split; [exact Hsans|]. split.
  - apply Hinv. intros k v Hget. discriminate Hget.
  - unfold interactive_setup_roster. rewrite Hrun, lift_ok_bind.
    destruct (sans_emails st) as [|n sans].
    + by rewrite add_out_nil.
    + reflexivity.
Qed.

(** Every name of a joined list stands after a separator, once one is put
    in front. *)
Lemma join_names (sep : string) (l : list string) (name : string) :
  name ∈ l →
  ∃ before after, sep +:+ Str.join sep l = before +:+ sep +:+ name +:+ after.
Proof.
  induction l as [|x l IH]; [by intros ?%elem_of_nil|].
  destruct l as [|y l].
  - intros ->%list_elem_of_singleton. exists EmptyString, EmptyString.
    cbn [Str.join]. by rewrite append_empty_r.
  - intros [->|Hin]%elem_of_cons.
    + by exists EmptyString, (sep +:+ Str.join sep (y :: l)).
    + destruct (IH Hin) as (before & after & Heq).
      exists (sep +:+ x +:+ before), after.
      change (Str.join sep (x :: y :: l))
        with (x +:+ sep +:+ Str.join sep (y :: l)).
      by rewrite Heq, !append_assoc.
Qed.

(** The warning of line 187 opens with its sentence and has every
    unmatched student on a line of its own, indented by two blanks. *)
Lemma sans_emails_warning_names (sans : list string) (name : string) :
  name ∈ sans →
  ∃ before after,
    sans_emails_warning sans
    = "Warning: could not find an email for the following students."
      +:+ before +:+ Str.nl +:+ "  " +:+ name +:+ after.
Proof.
  intros Hin.
  destruct (join_names (Str.nl +:+ "  ") sans name Hin)
    as (before & after & Heq).
  exists (" Check to make sure they aren't enrolled on gradescope" +:+ before),
    after.
  unfold sans_emails_warning.
  rewrite !append_assoc in Heq. rewrite Heq. by rewrite !append_assoc.
Qed.

(** C6.  For a student of the forum, the first candidate address that is
    among the valid ones is bound under the lowercased name; with no such
    candidate the lowercased name joins the list of unmatched students and
    the roster is left as it is.  The loop never raises: the roster is
    always returned, and a non-empty list of unmatched students is printed
    as a warning, which names each of them on a line of its own.  The
    student ["jane doe"] with the candidates ["jane@y.edu"] and
    ["jane@x.edu"], of which the second is valid, is bound to
    ["jane@x.edu"]; beside two students without a valid address she is
    bound just the same, and the warning lists the two. *)
Theorem forum_roster_binds_first_valid_email :
  (∀ (valid_emails : gset string) (st : setup_locals) (student : pz_user),
     ∃ st', setup_student valid_emails st student = Ok st'
       ∧ match first_valid valid_emails (candidates student) with
         | Some e =>
             roster st' = Dict.set (roster st) (Str.lower (pz_name student)) e
             ∧ Dict.get (roster st') (Str.lower (pz_name student)) = Some e
             ∧ sans_emails st' = sans_emails st
         | None =>
             roster st' = roster st
             ∧ sans_emails st' = sans_emails st ++ [Str.lower (pz_name student)]
         end)
  ∧ interactive_setup_roster
      [{| pz_name := "jane doe"; pz_email := "jane@y.edu, jane@x.edu";
          pz_role := "student" |}]
      ["jane@x.edu"] quiet
    = (Ok [("jane doe", "jane@x.edu")], quiet)
  ∧ (∀ (all_users : list pz_user) (gs_emails : list string) (w : world),
       ∃ st,
         foldM (setup_student (list_to_set gs_emails))
           (filter (λ x, pz_role x = "student") all_users) no_locals = Ok st
         ∧ sans_emails st
           = unmatched_students (list_to_set gs_emails)
               (filter (λ x, pz_role x = "student") all_users)
         ∧ interactive_setup_roster all_users gs_emails w
           = (Ok (roster st),
              add_out w match sans_emails st with
                        | [] => []
                        | _ => [Print (sans_emails_warning (sans_emails st))]
                        end))
  ∧ (∀ (sans : list string) (name : string),
       name ∈ sans →
       ∃ before after,
         sans_emails_warning sans
         = "Warning: could not find an email for the following students."
           +:+ before +:+ Str.nl +:+ "  " +:+ name +:+ after)
  ∧ interactive_setup_roster
      [{| pz_name := "Al Bee"; pz_email := "al@q.org"; pz_role := "student" |};
       {| pz_name := "Jane Doe"; pz_email := "jane@y.edu, jane@x.edu";
          pz_role := "student" |};
       {| pz_name := "Cy Dee"; pz_email := "cy@q.org, cy@r.org";
          pz_role := "student" |}]
      ["jane@x.edu"] quiet
    = (Ok [("jane doe", "jane@x.edu")],
       add_out quiet
         [Print ("Warning: could not find an email for the following students. Check to make sure they aren't enrolled on gradescope"
                 +:+ Str.nl +:+ "  al bee" +:+ Str.nl +:+ "  cy dee")]).
Proof.
  split; [|split; [|split; [|split]]]; [| | |exact sans_emails_warning_names|by vm_compute].
  - intros valid_emails st student. eexists. split.
    + apply setup_student_first_valid.
    + destruct (first_valid valid_emails (candidates student)); cbn [roster sans_emails].
      * by rewrite get_set_eq.
      * done.
  - vm_compute. reflexivity.
  - intros all_users gs_emails w.
    destruct (interactive_setup_roster_run all_users gs_emails w)
      as (st & Hrun & Hsans & _ & Hres).
    by exists st.
Qed.

(** C10.  Every address in the roster built from the forum membership is
    one of the valid addresses: when the inner loop has found a valid
    address, the loop variable [email], which is what line 185 stores,
    holds that same address, the first valid candidate. *)
Theorem forum_roster_emails_are_valid :
  (∀ (valid_emails : gset string) (emails : list string)
     (email_var : option string),
     match scan_emails valid_emails emails None email_var with
     | (Some valid_email, email) =>
         email = Some valid_email
         ∧ first_valid valid_emails emails = Some valid_email
         ∧ valid_email ∈ valid_emails
     | (None, _) => first_valid valid_emails emails = None
     end)
  ∧ (∀ (all_users : list pz_user) (gs_emails : list string) (w : world),
       ∃ (r : roster_t) (w' : world),
         interactive_setup_roster all_users gs_emails w = (Ok r, w')
         ∧ ∀ name email, Dict.get r name = Some email
                         → email ∈ (list_to_set gs_emails : gset string)).
Proof.
  split.
  - intros valid_emails emails email_var. rewrite scan_emails_first_valid.
    destruct (first_valid valid_emails emails) as [e|] eqn:Hfv; [|done].
    repeat split. by eapply first_valid_elem.
  - intros all_users gs_emails w.
    destruct (interactive_setup_roster_run all_users gs_emails w)
      as (st & _ & _ & Hinv & Hres).
    eauto.
Qed.

(** ** The ambiguity pass and the whole batch *)

Lemma extension_calls_add_out (w : world) (evs : list event) :
  extension_calls (out (add_out w evs))
  = extension_calls (out w) ++ extension_calls evs.
Proof. cbn [add_out out]. apply extension_calls_app. Qed.

Lemma extension_calls_resolved (assignments : list assignment) (days : Z)
    (student_name email : string) :
  extension_calls (resolved_events assignments days student_name email)
  = cross_product [email] assignments days.
Proof.
  unfold resolved_events, cross_product. cbn [extension_calls omap list_omap].
  fold (extension_calls ((λ a, ApplyExtension a email days) <$> assignments)).
  rewrite extension_calls_applied. cbn. by rewrite app_nil_r.
Qed.

Lemma cross_product_app (l1 l2 : list string) (assignments : list assignment)
    (days : Z) :
  cross_product (l1 ++ l2) assignments days
  = cross_product l1 assignments days ++ cross_product l2 assignments days.
Proof. unfold cross_product. apply bind_app. Qed.

Lemma cross_product_length (emails : list string)
    (assignments : list assignment) (days : Z) :
  length (cross_product emails assignments days)
  = length emails * length assignments.
Proof.
  induction emails as [|e emails IH]; [done|].
  change (e :: emails) with ([e] ++ emails).
  rewrite cross_product_app, length_app, IH.
  unfold cross_product. cbn. rewrite app_nil_r, length_fmap. lia.
Qed.

(** The prompt loop emits prompts and messages only, and an index it
    returns is within range. *)
Lemma selection_loop_sound (n : nat) (msg : string) (lines : list string)
    (o : list event) (r : result nat) (w' : world) :
  selection_loop n msg lines o = (r, w') →
  extension_calls (out w') = extension_calls o
  ∧ ∀ ix, r = Ok ix → ix < n.
Proof.
  revert o. induction lines as [|line rest IH]; intros o; cbn [selection_loop].
  - intros [= <- <-]. split; [|done]. cbn [out].
    rewrite extension_calls_app. cbn. by rewrite app_nil_r.
  - destruct (Str.isdigit line).
    + destruct (Str.int line) as [number|e].
      * destruct ((Z.of_nat number - 1 <? 0)%Z
                  || (Z.of_nat number - 1 >=? Z.of_nat n)%Z) eqn:Hrange.
        -- intros [Hcalls Hix]%IH. split; [|exact Hix].
           rewrite Hcalls, !extension_calls_app. cbn. by rewrite !app_nil_r.
        -- intros [= <- <-]. apply orb_false_iff in Hrange as [H1 H2]. split.
           ++ cbn [out]. rewrite extension_calls_app. cbn. by rewrite app_nil_r.
           ++ intros ix [= <-]. lia.
      * intros [= <- <-]. split; [|done]. cbn [out].
        rewrite extension_calls_app. cbn. by rewrite app_nil_r.
    + intros [Hcalls Hix]%IH. split; [|exact Hix].
      rewrite Hcalls, extension_calls_app. cbn. by rewrite app_nil_r.
Qed.

Lemma extension_calls_prints {A} (text : A → string) (l : list A) :
  extension_calls ((λ x, Print (text x)) <$> l) = [].
Proof. induction l as [|x l IH]; [done|]. exact IH. Qed.

Lemma selection_helper_sound (options : list string) (msg : string)
    (w w' : world) (r : result nat) :
  selection_helper options msg w = (r, w') →
  extension_calls (out w') = extension_calls (out w)
  ∧ ∀ ix, r = Ok ix → ix < length options.
Proof.
  unfold selection_helper. rewrite print_bind.
  destruct (py_max _) as [longest|e] eqn:Hmax.
  - rewrite lift_ok_bind.
    erewrite bind_ok_run; last first.
    { apply for_each_print_run
        with (text := λ p, "  (" +:+ pretty (p.1 + 1) +:+ ") " +:+ p.2).
      by intros [??]. }
    unfold read_selection. intros [Hcalls Hix]%selection_loop_sound.
    split; [|exact Hix]. rewrite Hcalls.
    rewrite !extension_calls_add_out, extension_calls_prints. cbn.
    by rewrite !app_nil_r.
  - rewrite lift_raise_bind. intros [= <- <-]. split; [|done].
    rewrite extension_calls_add_out. cbn. by rewrite app_nil_r.
Qed.

Section Batch.

Variable get_close_matches : string → list string → nat → list string.
Variable course_roster : roster_t.
Variable assignments : list assignment.
Variable days : Z.

Local Abbreviation match1 :=
  (match_name get_close_matches course_roster assignments days
     (Dict.keys course_roster)).
Local Abbreviation resolve1 :=
  (resolve_ambiguity course_roster assignments days).
Local Abbreviation cross l := (cross_product l assignments days).

(** The matching loop, however it ends: the calls it has made are the cross
    product for the names it has resolved; when it reaches its end, those
    are all the exact matches, and the other names with a close match are
    queued. *)
Lemma matching_loop_sound (names : list string) (ambig_names : ambig_t)
    (email : option string) (w w' : world)
    (r : result (ambig_t * option string)) :
  for_fold match1 names (ambig_names, email) w = (r, w') →
  ∃ resolved,
    extension_calls (out w') = extension_calls (out w) ++ cross resolved
    ∧ ∀ ambig_names' email', r = Ok (ambig_names', email') →
        ambig_names'
        = ambig_names ++ ambiguous_names get_close_matches course_roster names
        ∧ resolved = exact_emails course_roster names.
Proof.
  revert ambig_names email w.
  induction names as [|raw_name names IH]; intros ambig_names email w;
    cbn [for_fold].
  - rewrite mret_run. intros [= <- <-]. exists []. split.
    + by rewrite app_nil_r.
    + intros ? ? [= <- <-]. by rewrite app_nil_r.
  - unfold ambiguous_names, exact_emails. cbn [omap list_omap].
    fold (ambiguous_names get_close_matches course_roster names).
    fold (exact_emails course_roster names).
    destruct (Dict.get course_roster (Str.lower raw_name)) as [e|] eqn:Hget.
    + rewrite (mem_get_true _ _ _ Hget).
      rewrite (bind_ok_run _ _ _ _ _
                 (match_name_exact get_close_matches course_roster assignments
                    days _ ambig_names email raw_name e w Hget)).
      intros (resolved & Hcalls & Hend)%IH. exists ([e] ++ resolved). split.
      * rewrite Hcalls, extension_calls_add_out, extension_calls_resolved.
        by rewrite cross_product_app, app_assoc.
      * intros ? ? [-> ->]%Hend. done.
    + assert (Dict.mem (Str.lower raw_name) course_roster = false) as Hmem
        by (unfold Dict.mem; by rewrite Hget).
      rewrite Hmem.
      destruct (get_close_matches (Str.lower raw_name) (Dict.keys course_roster) 5)
        as [|c1 [|c2 cm]] eqn:Hcm.
      * rewrite (bind_ok_run _ _ _ _ _
                   (match_name_not_found get_close_matches course_roster
                      assignments days _ ambig_names email raw_name w Hmem Hcm)).
        intros (resolved & Hcalls & Hend)%IH. exists resolved. split; [|exact Hend].
        rewrite Hcalls, extension_calls_add_out. cbn. by rewrite app_nil_r.
      * rewrite (bind_raise_run _ _ _ _ _
                   (match_name_single get_close_matches course_roster
                      assignments days _ (ambig_names, email) raw_name c1 w
                      Hmem Hcm)).
        intros [= <- <-]. exists []. split; [by rewrite app_nil_r|done].
      * assert (2 ≤ length (get_close_matches (Str.lower raw_name)
                              (Dict.keys course_roster) 5)) as Hlen
          by (rewrite Hcm; cbn [length]; lia).
        rewrite (bind_ok_run _ _ _ _ _
                   (match_name_several get_close_matches course_roster
                      assignments days _ ambig_names email raw_name w Hmem Hlen)).
        rewrite Hcm. intros (resolved & Hcalls & Hend)%IH. exists resolved. split.
        -- rewrite Hcalls, extension_calls_add_out. cbn. by rewrite app_nil_r.
        -- intros ? ? [-> ->]%Hend. by rewrite <-app_assoc.
Qed.

(** One turn of the ambiguity loop: nothing, or the extension for the chosen
    student on every assignment. *)
Lemma resolve_ambiguity_sound (entry : string * list string) (w w' : world)
    (r : result ()) :
  resolve1 entry w = (r, w') →
  ∃ resolved,
    extension_calls (out w') = extension_calls (out w) ++ cross resolved
    ∧ (r = Ok () →
       ∃ choice, valid_choice course_roster entry choice
         ∧ resolved = picked_emails course_roster [choice]).
Proof.
  destruct entry as [ambig_name options]. unfold resolve_ambiguity.
  rewrite print_bind, bind_run.
  destruct (selection_helper _ _ _) as [[ix|e] w1] eqn:Hsel;
    apply selection_helper_sound in Hsel as [Hcalls Hix];
    rewrite extension_calls_add_out in Hcalls; cbn in Hcalls;
    rewrite app_nil_r in Hcalls.
  2:{ intros [= <- <-]. exists []. by rewrite app_nil_r. }
  specialize (Hix ix eq_refl). rewrite length_app in Hix. cbn [length] in Hix.
  destruct (Nat.eqb_spec ix (length options)) as [->|Hne].
  - rewrite print_run. intros [= <- <-]. exists []. split.
    + rewrite extension_calls_add_out, Hcalls. cbn. by rewrite !app_nil_r.
    + intros _. by exists None.
  - assert (ix < length options) as Hlt by lia.
    destruct (lookup_lt_is_Some_2 options ix Hlt) as [student_name Hname].
    unfold index. rewrite Hname, lift_ok_bind. unfold Dict.getitem.
    destruct (Dict.get course_roster student_name) as [e|] eqn:Hget.
    + rewrite lift_ok_bind, print_bind.
      rewrite (apply_all_run course_roster assignments days _ _ _ Hget).
      intros [= <- <-]. exists [e]. split.
      * rewrite add_out_app. cbn [app].
        fold (resolved_events assignments days student_name e).
        by rewrite extension_calls_add_out, Hcalls, extension_calls_resolved.
      * intros _. exists (Some student_name). split.
        -- split; [by eapply list_elem_of_lookup_2|by rewrite Hget].
        -- unfold picked_emails. cbn. by rewrite Hget.
    + rewrite lift_raise_bind. intros [= <- <-]. exists []. split; [|done].
      by rewrite Hcalls, app_nil_r.
Qed.

Lemma resolve_loop_sound (queue : ambig_t) (w w' : world) (r : result ()) :
  for_each queue resolve1 w = (r, w') →
  ∃ resolved,
    extension_calls (out w') = extension_calls (out w) ++ cross resolved
    ∧ (r = Ok () →
       ∃ choices, Forall2 (valid_choice course_roster) queue choices
         ∧ resolved = picked_emails course_roster choices).
Proof.
  revert w. induction queue as [|entry queue IH]; intros w; cbn [for_each].
  - rewrite mret_run. intros [= <- <-]. exists []. split.
    + by rewrite app_nil_r.
    + intros _. exists []. split; [constructor|done].
  - rewrite bind_run.
    destruct (resolve1 entry w) as [[[]|e] w1] eqn:Hturn;
      apply resolve_ambiguity_sound in Hturn as (resolved1 & Hcalls1 & Hend1).
    + intros (resolved & Hcalls & Hend)%IH. exists (resolved1 ++ resolved). split.
      * by rewrite Hcalls, Hcalls1, cross_product_app, app_assoc.
      * intros Hok. destruct (Hend1 eq_refl) as (choice & Hvalid & ->).
        destruct (Hend Hok) as (choices & Hall & ->).
        exists (choice :: choices). split; [by constructor|].
        change (choice :: choices) with ([choice] ++ choices).
        unfold picked_emails. by rewrite omap_app.
    + intros [= <- <-]. exists resolved1. split; [exact Hcalls1|done].
Qed.

End Batch.

(** C8.  However [main_extend] ends, the extension operations it has
    performed are the cross product of the students resolved so far with
    the filtered assignments: every assignment for each of them, N * M
    operations for N students and M assignments.  When it runs to its end,
    the resolved students are the names resolved in the matching pass
    (those whose lowercased form is a key), followed by the names the
    operator resolved from the ambiguity queue.  A call of the grading
    platform is taken to return. *)
Theorem batch_applies_cross_product
    (get_close_matches : string → list string → nat → list string)
    (course_roster : roster_t) (assignments : list assignment) (days : Z)
    (names : list string) (w w' : world) (r : result ()) :
  main_extend get_close_matches course_roster assignments days names w
  = (r, w') →
  ∃ resolved : list string,
    extension_calls (out w')
    = extension_calls (out w) ++ cross_product resolved assignments days
    ∧ length (cross_product resolved assignments days)
      = length resolved * length assignments
    ∧ (r = Ok () →
       ∃ choices : list (option string),
         Forall2 (valid_choice course_roster)
           (ambiguous_names get_close_matches course_roster names) choices
         ∧ resolved
           = exact_emails course_roster names
             ++ picked_emails course_roster choices).
Proof.
  unfold main_extend. destruct (length names =? 0)%nat.
  { rewrite print_bind. intros [= <- <-]. exists []. split; [|done].
    rewrite extension_calls_add_out. cbn. by rewrite app_nil_r. }
  rewrite print_bind.
  erewrite bind_ok_run; last first.
  { apply for_each_print_run with (text := λ a, "   " +:+ get_name a). done. }
  rewrite print_bind, bind_run.
  assert (∀ w0 : world,
            extension_calls
              (out (add_out
                      (add_out (add_out w0 [Print "Processing extensions for the following assignments: "])
                         ((λ a, Print ("   " +:+ get_name a)) <$> assignments))
                      [Print "For the following students:"]))
            = extension_calls (out w0)) as Hhead.
  { intros w0. rewrite !extension_calls_add_out, extension_calls_prints. cbn.
    by rewrite !app_nil_r. }
  destruct (matching_pass _ _ _ _ _ _) as [[queue|e] w1] eqn:Hpass;
    unfold matching_pass in Hpass; rewrite bind_run in Hpass;
    destruct (for_fold _ _ _ _) as [[[ambig_names email]|e'] w2] eqn:Hloop;
    try discriminate Hpass;
    apply matching_loop_sound in Hloop as (resolved1 & Hcalls1 & Hend1);
    rewrite Hhead in Hcalls1.
  - rewrite mret_run in Hpass. injection Hpass as <- <-.
    destruct (Hend1 _ _ eq_refl) as [-> ->].
    intros (resolved2 & Hcalls2 & Hend2)%resolve_loop_sound.
    exists (exact_emails course_roster names ++ resolved2). split; [|split].
    + by rewrite Hcalls2, Hcalls1, cross_product_app, app_assoc.
    + apply cross_product_length.
    + intros Hok. destruct (Hend2 Hok) as (choices & Hall & ->). eauto.
  - injection Hpass as <- <-. intros [= <- <-].
    exists resolved1. split; [exact Hcalls1|]. split; [|done].
    apply cross_product_length.
Qed.

(** A batch with an exact match, an ambiguous name the operator resolves
    to its first option, and a name that is not found: two students by two
    assignments, four operations. *)
Lemma batch_applies_cross_product_witness :
  main_extend Difflib.get_close_matches class_roster [hw1; hw1_bonus] 5
    batch_names batch_start
  = (Ok (), batch_end)
  ∧ extension_calls (out batch_end)
    = [(hw1, "jane@x.edu", 5%Z); (hw1_bonus, "jane@x.edu", 5%Z);
       (hw1, "roe@x.edu", 5%Z); (hw1_bonus, "roe@x.edu", 5%Z)]
  ∧ ∃ resolved : list string,
      extension_calls (out batch_end)
      = extension_calls (out batch_start)
        ++ cross_product resolved [hw1; hw1_bonus] 5
      ∧ length (cross_product resolved [hw1; hw1_bonus] 5)
        = length resolved * length [hw1; hw1_bonus]
      ∧ (Ok () = Ok () →
         ∃ choices : list (option string),
           Forall2 (valid_choice class_roster)
             (ambiguous_names Difflib.get_close_matches class_roster batch_names)
             choices
           ∧ resolved
             = exact_emails class_roster batch_names
               ++ picked_emails class_roster choices).
Proof.
  split; [vm_compute; reflexivity|]. split; [vm_compute; reflexivity|].
  apply (batch_applies_cross_product Difflib.get_close_matches class_roster
           [hw1; hw1_bonus] 5 batch_names batch_start batch_end (Ok ())).
  vm_compute. reflexivity.
Defined.

(** ** The prompts of the command line *)

Lemma lower_char_n (c : ascii) :
  Ascii.eqb (Str.lower_char c) "n" = Ascii.eqb c "n" || Ascii.eqb c "N".
Proof. by destruct c as [[] [] [] [] [] [] [] []]. Qed.

Lemma lower_char_y (c : ascii) :
  Ascii.eqb (Str.lower_char c) "y" = Ascii.eqb c "y" || Ascii.eqb c "Y".
Proof. by destruct c as [[] [] [] [] [] [] [] []]. Qed.

Lemma prompts_app (o1 o2 : list event) :
  prompts (o1 ++ o2) = prompts o1 + prompts o2.
Proof. unfold prompts. by rewrite List.filter_app, length_app. Qed.

Lemma yes_no_loop_skips (skipped lines : list string) (o : list event) :
  Forall (λ line, yes_no_answer line = None) skipped →
  yes_no_loop (skipped ++ lines) o
  = yes_no_loop lines (o ++ replicate (length skipped) (Prompt "(y/N): ")).
Proof.
  intros Hskip. revert o.
  induction Hskip as [|line skipped Hline _ IH]; intros o.
  - cbn [app length replicate]. by rewrite app_nil_r.
  - cbn [app yes_no_loop length replicate]. rewrite Hline, IH.
    by rewrite <-app_assoc.
Qed.

(** X1.  [yes_no_helper] answers with the first line that decides: lines
    that are neither empty nor start with [y], [Y], [n] or [N] are asked
    again, one prompt each; the empty line and a leading [n] or [N] mean
    no, a leading [y] or [Y] means yes, whatever follows the letter.  The
    lines after the deciding one are left to be read. *)
Theorem yes_no_helper_first_deciding_line
    (skipped : list string) (line : string) (rest : list string)
    (o : list event) (answer : bool) :
  Forall (λ l, yes_no_answer l = None) skipped →
  yes_no_answer line = Some answer →
  yes_no_helper {| stdin := skipped ++ line :: rest; out := o |}
  = (Ok answer,
     {| stdin := rest;
        out := o ++ replicate (S (length skipped)) (Prompt "(y/N): ") |})
  ∧ (answer = true ↔ ∃ c tail, line = String c tail ∧ (c = "y" ∨ c = "Y")%char).
Proof.
  intros Hskip Hline. split.
  - unfold yes_no_helper. cbn [stdin out].
    rewrite (yes_no_loop_skips _ _ _ Hskip). cbn [yes_no_loop]. rewrite Hline.
    f_equal. f_equal. rewrite <-app_assoc. f_equal.
    change [Prompt "(y/N): "] with (replicate 1 (Prompt "(y/N): ")).
    rewrite <-replicate_add. f_equal. lia.
  - unfold yes_no_answer in Hline. destruct line as [|c tail]; cbn [Str.lower] in Hline.
    + injection Hline as <-. split; [done|]. by intros (? & ? & ? & _).
    + rewrite lower_char_n, lower_char_y in Hline.
      destruct (Ascii.eqb_spec c "n") as [->|Hn]; cbn [orb] in Hline.
      { injection Hline as <-. split; [done|]. by intros (? & ? & [= <- _] & [?|?]). }
      destruct (Ascii.eqb_spec c "N") as [->|HN]; cbn [orb] in Hline.
      { injection Hline as <-. split; [done|]. by intros (? & ? & [= <- _] & [?|?]). }
      destruct (Ascii.eqb_spec c "y") as [->|Hy]; cbn [orb] in Hline.
      { injection Hline as <-. split; [|done]. intros _. eauto. }
      destruct (Ascii.eqb_spec c "Y") as [->|HY]; cbn [orb] in Hline; [|done].
      injection Hline as <-. split; [|done]. intros _. eauto.
Qed.

(** Two lines that decide nothing, then [Yes]. *)
Lemma yes_no_helper_first_deciding_line_witness :
  yes_no_helper {| stdin := ["maybe"; "ok"] ++ "Yes" :: ["n"]; out := [] |}
  = (Ok true,
     {| stdin := ["n"];
        out := [] ++ replicate (S (length ["maybe"; "ok"])) (Prompt "(y/N): ") |})
  ∧ (true = true ↔ ∃ c tail, "Yes" = String c tail ∧ (c = "y" ∨ c = "Y")%char).
Proof.
  apply (yes_no_helper_first_deciding_line ["maybe"; "ok"] "Yes" ["n"] [] true).
  - repeat constructor.
  - reflexivity.
Defined.

(** X2.  When no line of the input decides, [yes_no_helper] ends in
    [EOFError], after one prompt for each line and one more. *)
Theorem yes_no_helper_undecided_input (lines : list string) (o : list event) :
  Forall (λ l, yes_no_answer l = None) lines →
  yes_no_helper {| stdin := lines; out := o |}
  = (Raise EOFError,
     {| stdin := [];
        out := o ++ replicate (S (length lines)) (Prompt "(y/N): ") |}).
Proof.
  intros Hskip. unfold yes_no_helper. cbn [stdin out].
  rewrite <-(app_nil_r lines) at 1.
  rewrite (yes_no_loop_skips _ _ _ Hskip). cbn [yes_no_loop].
  rewrite <-app_assoc.
  change [Prompt "(y/N): "] with (replicate 1 (Prompt "(y/N): ")).
  rewrite <-replicate_add. do 4 f_equal. lia.
Qed.

Lemma yes_no_helper_undecided_input_witness :
  yes_no_helper {| stdin := ["sure"; "1"]; out := [] |}
  = (Raise EOFError,
     {| stdin := [];
        out := [] ++ replicate (S (length ["sure"; "1"])) (Prompt "(y/N): ") |}).
Proof.
  apply (yes_no_helper_undecided_input ["sure"; "1"] []). repeat constructor.
Defined.

(** With an option to show, [selection_helper] prints the message and the
    numbered options and enters its prompt loop. *)
Lemma selection_helper_run (options : list string) (msg : string) (w : world) :
  options ≠ [] →
  selection_helper options msg w
  = selection_loop (length options) msg (stdin w)
      (out w ++ Print msg
         :: ((λ p, Print ("  (" +:+ pretty (p.1 + 1) +:+ ") " +:+ p.2))
             <$> enumerate options)).
Proof.
  intros Hne. destruct options as [|opt options]; [done|].
  unfold selection_helper. rewrite print_bind.
  change (py_max (map String.length (opt :: options)))
    with (Ok (fold_left Nat.max (map String.length options) (String.length opt))).
  rewrite lift_ok_bind.
  erewrite bind_ok_run; last first.
  { apply for_each_print_run
      with (text := λ p, "  (" +:+ pretty (p.1 + 1) +:+ ") " +:+ p.2).
    by intros [??]. }
  unfold read_selection. rewrite add_out_app. reflexivity.
Qed.

Lemma int_within_limit (line : string) :
  (Z.of_nat (String.length line) ≤ Str.max_str_digits)%Z →
  Str.int line = Ok (Str.decimal line).
Proof.
  intros Hlen. unfold Str.int.
  by destruct (Z.ltb_spec Str.max_str_digits (Z.of_nat (String.length line)));
    [lia|].
Qed.

Lemma int_overlong (line : string) :
  (Str.max_str_digits < Z.of_nat (String.length line))%Z →
  Str.int line = Raise ValueError.
Proof.
  intros Hlen. unfold Str.int.
  by destruct (Z.ltb_spec Str.max_str_digits (Z.of_nat (String.length line)));
    [|lia].
Qed.

Lemma int_ok (line : string) (number : nat) :
  Str.int line = Ok number →
  (Z.of_nat (String.length line) ≤ Str.max_str_digits)%Z
  ∧ Str.decimal line = number.
Proof.
  unfold Str.int.
  destruct (Z.ltb_spec Str.max_str_digits (Z.of_nat (String.length line)));
    [done|]. by intros [= <-].
Qed.

Lemma selection_loop_skips (n : nat) (msg : string) (skipped : list string) :
  Forall (asks_again n) skipped →
  ∃ evs, prompts evs = length skipped
    ∧ ∀ lines o,
        selection_loop n msg (skipped ++ lines) o
        = selection_loop n msg lines (o ++ evs).
Proof.
  induction 1 as [|line skipped (_ & Hlong & Hline) _ (evs & Hprompts & IH)].
  - exists []. split; [done|]. intros lines o. by rewrite app_nil_r.
  - destruct (Str.isdigit line) eqn:Hdigit.
    + assert (Z.of_nat (String.length line) ≤ Str.max_str_digits)%Z as Hlen.
      { destruct (Z.le_gt_cases (Z.of_nat (String.length line))
                    Str.max_str_digits) as [|Hgt]; [done|].
        destruct Hlong. split; [done|lia]. }
      exists ([Prompt "Selection: ";
               Print (pretty (Z.of_nat (Str.decimal line) - 1 + 1)%Z
                      +:+ " not within range. " +:+ msg)] ++ evs).
      split; [rewrite prompts_app, Hprompts; by cbn|].
      intros lines o. cbn [app selection_loop].
      rewrite Hdigit, (int_within_limit _ Hlen).
      assert ((Z.of_nat (Str.decimal line) - 1 <? 0)%Z
              || (Z.of_nat (Str.decimal line) - 1 >=? Z.of_nat n)%Z = true) as ->.
      { apply orb_true_iff.
        destruct (decide (Str.decimal line = 0)) as [Hz|Hnz]; [left; lia|right].
        assert (¬ Str.decimal line ≤ n)
          by (intros ?; apply Hline; split; [done|split; [done|lia]]).
        lia. }
      rewrite IH. f_equal. by rewrite <-!app_assoc.
    + exists ([Prompt "Selection: "] ++ evs).
      split; [rewrite prompts_app, Hprompts; by cbn|].
      intros lines o. cbn [app selection_loop]. rewrite Hdigit, IH.
      f_equal. by rewrite <-app_assoc.
Qed.

Lemma prompts_prints {A} (text : A → string) (l : list A) :
  prompts ((λ x, Print (text x)) <$> l) = 0.
Proof. induction l as [|x l IH]; [done|]. exact IH. Qed.

(** X3.  [selection_helper] returns the choice of the first line of the
    input that is a number between 1 and the number of options: the index
    of that option, one less than the number typed.  The lines before it,
    text in the ASCII range that is no such number and that [int] is not
    asked to convert beyond its limit, each cost one prompt; the lines
    after it are left to be read. *)
Theorem selection_helper_first_valid_line
    (options : list string) (msg : string)
    (skipped : list string) (line : string) (rest : list string)
    (o : list event) :
  Forall (asks_again (length options)) skipped →
  selects (length options) line →
  ∃ w',
    selection_helper options msg {| stdin := skipped ++ line :: rest; out := o |}
    = (Ok (Str.decimal line - 1), w')
    ∧ stdin w' = rest
    ∧ is_Some (options !! (Str.decimal line - 1))
    ∧ prompts (out w') = prompts o + S (length skipped).
Proof.
  intros Hskip (Hdigit & Hlen & Hrange).
  assert (options ≠ []) as Hne by (intros ->; cbn in Hrange; lia).
  rewrite (selection_helper_run _ _ _ Hne). cbn [stdin out].
  destruct (selection_loop_skips (length options) msg skipped Hskip)
    as (evs & Hprompts & Hloop).
  rewrite Hloop. cbn [selection_loop]. rewrite Hdigit, (int_within_limit _ Hlen).
  assert ((Z.of_nat (Str.decimal line) - 1 <? 0)%Z
          || (Z.of_nat (Str.decimal line) - 1 >=? Z.of_nat (length options))%Z
          = false) as -> by (apply orb_false_iff; lia).
  eexists. split; [|split; [|split]].
  - f_equal. f_equal. lia.
  - reflexivity.
  - apply lookup_lt_is_Some_2. lia.
  - cbn [out]. rewrite !prompts_app, Hprompts.
    change (Print msg :: ?l) with ([Print msg] ++ l).
    rewrite prompts_app, prompts_prints. cbn. lia.
Qed.

(** Three options; a word, a zero and a number too large, then [02]. *)
Lemma selection_helper_first_valid_line_witness :
  ∃ w',
    selection_helper ["jane roe"; "jane doe"; "(None)"] default_msg
      {| stdin := ["two"; "0"; "4"] ++ "02" :: ["1"]; out := [] |}
    = (Ok (Str.decimal "02" - 1), w')
    ∧ stdin w' = ["1"]
    ∧ is_Some (["jane roe"; "jane doe"; "(None)"] !! (Str.decimal "02" - 1))
    ∧ prompts (out w') = prompts [] + S (length ["two"; "0"; "4"]).
Proof.
  apply (selection_helper_first_valid_line ["jane roe"; "jane doe"; "(None)"]
           default_msg ["two"; "0"; "4"] "02" ["1"] []).
  - repeat constructor;
      first [ intros [_ Hlong]; vm_compute in Hlong; discriminate Hlong
            | intros (Hd & _ & Hr); vm_compute in Hd, Hr;
              first [discriminate Hd | lia] ].
  - split; [reflexivity|]. split; [by vm_compute|]. vm_compute. lia.
Defined.

(** X4.  When every line of the input is asked again after, being text in
    the ASCII range that is no number between 1 and the number of options
    and that [int] is not asked to convert beyond its limit,
    [selection_helper] ends in [EOFError] with the input used up: it never
    falls back on a default choice. *)
Theorem selection_helper_no_valid_line
    (options : list string) (msg : string) (lines : list string)
    (o : list event) :
  options ≠ [] →
  Forall (asks_again (length options)) lines →
  ∃ w',
    selection_helper options msg {| stdin := lines; out := o |}
    = (Raise EOFError, w')
    ∧ stdin w' = []
    ∧ prompts (out w') = prompts o + S (length lines).
Proof.
  intros Hne Hskip. rewrite (selection_helper_run _ _ _ Hne). cbn [stdin out].
  destruct (selection_loop_skips (length options) msg lines Hskip)
    as (evs & Hprompts & Hloop).
  specialize (Hloop []). rewrite app_nil_r in Hloop. rewrite Hloop.
  cbn [selection_loop].
  eexists. split; [reflexivity|]. split; [reflexivity|].
  cbn [out]. rewrite !prompts_app, Hprompts.
  change (Print msg :: ?l) with ([Print msg] ++ l).
  rewrite prompts_app, prompts_prints. cbn. lia.
Qed.

Lemma selection_helper_no_valid_line_witness :
  ∃ w',
    selection_helper ["a"; "b"] default_msg {| stdin := ["3"; "b"]; out := [] |}
    = (Raise EOFError, w')
    ∧ stdin w' = []
    ∧ prompts (out w') = prompts [] + S (length ["3"; "b"]).
Proof.
  apply (selection_helper_no_valid_line ["a"; "b"] default_msg ["3"; "b"] []).
  - discriminate.
  - repeat constructor;
      first [ intros [_ Hlong]; vm_compute in Hlong; discriminate Hlong
            | intros (Hd & _ & Hr); vm_compute in Hd, Hr;
              first [discriminate Hd | lia] ].
Defined.

(** X23.  A line of more digits than [int] converts ends
    [selection_helper] in [ValueError], however many options there are and
    whatever the number is, leading zeros included: the lines before it
    have been asked again after, the line is used up, and no index is
    returned. *)
Theorem selection_helper_overlong_line
    (options : list string) (msg : string)
    (skipped : list string) (line : string) (rest : list string)
    (o : list event) :
  options ≠ [] →
  Forall (asks_again (length options)) skipped →
  overlong line →
  ∃ w',
    selection_helper options msg {| stdin := skipped ++ line :: rest; out := o |}
    = (Raise ValueError, w')
    ∧ stdin w' = rest
    ∧ prompts (out w') = prompts o + S (length skipped).
Proof.
  intros Hne Hskip [Hdigit Hlong].
  rewrite (selection_helper_run _ _ _ Hne). cbn [stdin out].
  destruct (selection_loop_skips (length options) msg skipped Hskip)
    as (evs & Hprompts & Hloop).
  rewrite Hloop. cbn [selection_loop]. rewrite Hdigit, (int_overlong _ Hlong).
  eexists. split; [reflexivity|]. split; [reflexivity|].
  cbn [out]. rewrite !prompts_app, Hprompts.
  change (Print msg :: ?l) with ([Print msg] ++ l).
  rewrite prompts_app, prompts_prints. cbn. lia.
Qed.

(** Two options; a word, then the number 1 after 4300 zeros. *)
Lemma selection_helper_overlong_line_witness :
  ∃ w',
    selection_helper ["a"; "b"] default_msg
      {| stdin := ["one"] ++ padded_one :: ["1"]; out := [] |}
    = (Raise ValueError, w')
    ∧ stdin w' = ["1"]
    ∧ prompts (out w') = prompts [] + S (length ["one"]).
Proof.
  apply (selection_helper_overlong_line ["a"; "b"] default_msg ["one"]
           padded_one ["1"] []).
  - discriminate.
  - repeat constructor;
      first [ intros [Hd _]; vm_compute in Hd; discriminate Hd
            | intros (Hd & _ & _); vm_compute in Hd; discriminate Hd ].
  - split; by vm_compute.
Defined.

(** ** The roster builders, row by row *)

(** [normalize_name] by cases on the comma. *)
Lemma normalize_name_outcome (name_str : string) :
  normalize_name name_str =
    if Str.contains_char "," name_str then Raise UnboundLocalError
    else Ok name_str.
Proof.
  unfold normalize_name, Str.split.
  destruct (Str.contains_char "," name_str) eqn:Hc.
  - pose proof (split_from_comma_length EmptyString name_str Hc) as Hlen.
    destruct (Nat.eqb_spec (length (Str.split_from "," 0 EmptyString name_str)) 1);
      [lia|reflexivity].
  - by rewrite split_from_no_comma.
Qed.

Lemma lookup_col (entry : list string) (i : nat) :
  i < length entry → entry !! i = Some (col i entry).
Proof.
  intros Hlt. unfold col.
  by destruct (lookup_lt_is_Some_2 entry i Hlt) as [x ->].
Qed.

Lemma gradescope_entry_outcome (r : roster_t) (entry : list string) :
  4 ≤ length entry →
  gradescope_entry r entry
  = if gradescope_student_with_comma entry then Raise UnboundLocalError
    else Ok (gradescope_binding r entry).
Proof.
  intros Hlen. unfold gradescope_entry, index.
  rewrite !lookup_col by lia.
  unfold gradescope_student_with_comma, gradescope_binding.
  cbn [mbind result_bind].
  destruct (String.eqb (col 3 entry) "Student"); [|done]. cbn [andb].
  rewrite normalize_name_outcome.
  by destruct (Str.contains_char "," (col 0 entry)).
Qed.

Lemma gradescope_rows_outcome (entries : list (list string)) (r : roster_t) :
  Forall (λ entry, 4 ≤ length entry) entries →
  foldM gradescope_entry entries r
  = if existsb gradescope_student_with_comma entries then Raise UnboundLocalError
    else Ok (fold_left gradescope_binding entries r).
Proof.
  intros Hall. revert r.
  induction Hall as [|entry entries Hlen _ IH]; intros r; [done|].
  cbn [foldM existsb fold_left]. rewrite (gradescope_entry_outcome _ _ Hlen).
  destruct (gradescope_student_with_comma entry); [done|].
  cbn [orb mbind result_bind]. apply IH.
Qed.

(** X5.  Over an export whose data rows all have their four columns,
    [read_gradescope_roster] fails exactly when some student's name has a
    comma, with [UnboundLocalError]; a comma in the name of anyone else
    does no harm.  Otherwise the roster binds each student's name, spelled
    as in the file, to the e-mail address, a later row of the same name
    replacing an earlier one; the header row is not read. *)
Theorem read_gradescope_roster_outcome
    (header : list string) (entries : list (list string)) :
  Forall (λ entry, 4 ≤ length entry) entries →
  read_gradescope_roster (header :: entries)
  = if existsb gradescope_student_with_comma entries then Raise UnboundLocalError
    else Ok (fold_left gradescope_binding entries []).
Proof. intros Hall. by apply gradescope_rows_outcome. Qed.

(** A teaching assistant written with a comma, two rows for one student. *)
Lemma read_gradescope_roster_outcome_witness :
  read_gradescope_roster
    [["Name"; "SID"; "Email"; "Role"];
     ["Jane Doe"; "S1"; "jane@old.edu"; "Student"];
     ["Smith, Bob"; "S2"; "bob@x.edu"; "TA"];
     ["Jane Doe"; "S1"; "jane@x.edu"; "Student"]]
  = Ok [("Jane Doe", "jane@x.edu")].
Proof.
  rewrite (read_gradescope_roster_outcome ["Name"; "SID"; "Email"; "Role"]
             [["Jane Doe"; "S1"; "jane@old.edu"; "Student"];
              ["Smith, Bob"; "S2"; "bob@x.edu"; "TA"];
              ["Jane Doe"; "S1"; "jane@x.edu"; "Student"]]).
  - reflexivity.
  - repeat constructor.
Defined.

Lemma lower_char_idempotent (c : ascii) :
  Str.lower_char (Str.lower_char c) = Str.lower_char c.
Proof. by destruct c as [[] [] [] [] [] [] [] []]. Qed.

Lemma lower_idempotent (s : string) : Str.lower (Str.lower s) = Str.lower s.
Proof.
  induction s as [|c s IH]; [done|].
  cbn [Str.lower]. by rewrite lower_char_idempotent, IH.
Qed.

Lemma lowercase_keys_set (r : roster_t) (name email : string) :
  lowercase_keys r → lowercase_keys (Dict.set r (Str.lower name) email).
Proof.
  intros Hr k v. destruct (decide (Str.lower name = k)) as [<-|Hne].
  - intros _. apply lower_idempotent.
  - rewrite get_set_ne by done. apply Hr.
Qed.

(** One row of the forum's export: nothing, or the binding of a student's
    lowercased name, which has no comma. *)
Lemma piazza_entry_ok (r r' : roster_t) (entry : list string) :
  piazza_entry r entry = Ok r' →
  (col 2 entry ≠ "Student" ∧ r' = r)
  ∨ (col 2 entry = "Student"
     ∧ Str.contains_char "," (col 0 entry) = false
     ∧ r' = Dict.set r (Str.lower (col 0 entry)) (col 1 entry)).
Proof.
  unfold piazza_entry, index, col.
  destruct (entry !! 2) as [role|]; [|done]. cbn [mbind result_bind default from_option id].
  destruct (String.eqb_spec role "Student") as [->|Hrole];
    [|intros [= <-]; by left].
  destruct (entry !! 0) as [raw|]; [|done]. cbn [mbind result_bind default from_option id].
  rewrite normalize_name_outcome.
  destruct (Str.contains_char "," raw); [done|]. cbn [mbind result_bind].
  destruct (entry !! 1) as [email|]; [|done]. cbn [mbind result_bind default from_option id].
  intros [= <-]. by right.
Qed.

Lemma piazza_rows_lowercase (entries : list (list string)) (r r' : roster_t) :
  foldM piazza_entry entries r = Ok r' → lowercase_keys r → lowercase_keys r'.
Proof.
  revert r. induction entries as [|entry entries IH]; intros r; cbn [foldM].
  - by intros [= <-].
  - destruct (piazza_entry r entry) as [r1|e] eqn:Hentry; [|done].
    cbn [mbind result_bind]. intros Hrest Hr. apply (IH _ Hrest).
    apply piazza_entry_ok in Hentry as [[_ ->]|(_ & _ & ->)]; [done|].
    by apply lowercase_keys_set.
Qed.

(** X6.  Every key of a roster that [read_piazza_roster] returns is in
    lower case, so that each student of the roster is found by an exact
    match whatever the case of the name given to [main_extend], and
    whatever the fuzzy matcher. *)
Theorem read_piazza_roster_keys_match
    (get_close_matches : string → list string → nat → list string)
    (rows : list (list string)) (r : roster_t)
    (assignments : list assignment) (days : Z) (k email query : string) :
  read_piazza_roster rows = Ok r →
  Dict.get r k = Some email →
  Str.lower query = Str.lower k →
  Str.lower k = k
  ∧ exact_match get_close_matches r assignments days query email.
Proof.
  intros Hread Hget Hquery.
  assert (Str.lower k = k) as Hk.
  { destruct rows as [|header entries]; [done|].
    eapply piazza_rows_lowercase; [exact Hread| |exact Hget]. by intros ? ? [=]. }
  split; [exact Hk|]. intros ambig_names email_var w.
  apply match_name_exact. by rewrite Hquery, Hk.
Qed.

Lemma read_piazza_roster_keys_match_witness :
  read_piazza_roster piazza_rows = Ok jane_roster
  ∧ Str.lower "jane doe" = "jane doe"
  ∧ exact_match Difflib.get_close_matches jane_roster [hw1] 5 "Jane Doe"
      "jane@x.edu".
Proof.
  split; [reflexivity|].
  apply (read_piazza_roster_keys_match Difflib.get_close_matches piazza_rows
           jane_roster [hw1] 5 "jane doe" "jane@x.edu" "Jane Doe");
    reflexivity.
Defined.

Lemma foldM_app {S A} (body : S → A → result S) (l1 l2 : list A) (s : S) :
  foldM body (l1 ++ l2) s = foldM body l1 s ≫= foldM body l2.
Proof.
  revert s. induction l1 as [|x l1 IH]; intros s; [done|].
  cbn [app foldM]. destruct (body s x); [apply IH|done].
Qed.

(** The rows after the last one for a name leave its binding alone. *)
Lemma piazza_rows_keep (entries : list (list string)) (r r' : roster_t)
    (k v : string) :
  Forall (λ entry, col 2 entry = "Student" → Str.lower (col 0 entry) ≠ k)
    entries →
  foldM piazza_entry entries r = Ok r' →
  Dict.get r k = Some v → Dict.get r' k = Some v.
Proof.
  intros Hall. revert r.
  induction Hall as [|entry entries Hentry _ IH]; intros r; cbn [foldM].
  - by intros [= <-].
  - destruct (piazza_entry r entry) as [r1|e] eqn:Hstep; [|done].
    cbn [mbind result_bind]. intros Hrest Hget. apply (IH _ Hrest).
    apply piazza_entry_ok in Hstep as [[_ ->]|(Hrole & _ & ->)]; [done|].
    rewrite get_set_ne; [done|by apply Hentry].
Qed.

(** X7.  When two rows of the forum's export give the same student, up to
    letter case, the roster that [read_piazza_roster] returns keeps the
    address of the last of them: a later row replaces an earlier one
    without a word. *)
Theorem read_piazza_roster_last_row_wins
    (header : list string) (before : list (list string))
    (entry : list string) (after : list (list string)) (r : roster_t) :
  read_piazza_roster (header :: before ++ entry :: after) = Ok r →
  col 2 entry = "Student" →
  Forall (λ later, col 2 later = "Student"
                   → Str.lower (col 0 later) ≠ Str.lower (col 0 entry)) after →
  Dict.get r (Str.lower (col 0 entry)) = Some (col 1 entry).
Proof.
  intros Hread Hrole Hafter. cbn [read_piazza_roster] in Hread.
  rewrite foldM_app in Hread.
  destruct (foldM piazza_entry before []) as [r0|e]; [|done].
  cbn [mbind result_bind foldM] in Hread.
  destruct (piazza_entry r0 entry) as [r1|e] eqn:Hstep; [|done].
  cbn [mbind result_bind] in Hread.
  apply (piazza_rows_keep _ _ _ _ _ Hafter Hread).
  apply piazza_entry_ok in Hstep as [[Hne _]|(_ & _ & ->)]; [done|].
  apply get_set_eq.
Qed.

Lemma read_piazza_roster_last_row_wins_witness :
  Dict.get jane_roster (Str.lower (col 0 ["JANE DOE"; "jane@x.edu"; "Student"]))
  = Some (col 1 ["JANE DOE"; "jane@x.edu"; "Student"]).
Proof.
  apply (read_piazza_roster_last_row_wins ["name"; "email"; "role"]
           [["Jane Doe"; "jane@old.edu"; "Student"];
            ["Bob Smith"; "bob@x.edu"; "Professor"]]
           ["JANE DOE"; "jane@x.edu"; "Student"] [] jane_roster).
  - reflexivity.
  - reflexivity.
  - constructor.
Defined.

(** ** The roster from the forum membership, student by student *)

Lemma set_keeps_keys (r : roster_t) (k k' v : string) :
  is_Some (Dict.get r k') → is_Some (Dict.get (Dict.set r k v) k').
Proof.
  destruct (decide (k = k')) as [->|Hne].
  - intros _. by rewrite get_set_eq.
  - by rewrite get_set_ne.
Qed.

(** After the loop, a student with a valid address is a key of the roster,
    and the keys the loop started with are still there. *)
Lemma setup_loop_keys (valid_emails : gset string) (students : list pz_user)
    (st st' : setup_locals) :
  foldM (setup_student valid_emails) students st = Ok st' →
  (∀ k, is_Some (Dict.get (roster st) k) → is_Some (Dict.get (roster st') k))
  ∧ ∀ x, x ∈ students →
      is_Some (first_valid valid_emails (candidates x)) →
      is_Some (Dict.get (roster st') (Str.lower (pz_name x))).
Proof.
  revert st. induction students as [|y students IH]; intros st; cbn [foldM].
  - intros [= <-]. split; [done|]. by intros x ?%elem_of_nil.
  - rewrite setup_student_first_valid. cbn [mbind result_bind].
    intros [Hkeep Hall]%IH. split.
    + intros k Hk. apply Hkeep.
      destruct (first_valid valid_emails (candidates y)); cbn [roster];
        [by apply set_keeps_keys|done].
    + intros x [->|Hx]%elem_of_cons Hvalid; [|by apply Hall].
      apply Hkeep. destruct Hvalid as [e ->]. cbn [roster].
      by rewrite get_set_eq.
Qed.

Lemma setup_loop_lowercase (valid_emails : gset string)
    (students : list pz_user) (st st' : setup_locals) :
  foldM (setup_student valid_emails) students st = Ok st' →
  lowercase_keys (roster st) → lowercase_keys (roster st').
Proof.
  revert st. induction students as [|y students IH]; intros st; cbn [foldM].
  - by intros [= <-].
  - rewrite setup_student_first_valid. cbn [mbind result_bind].
    intros Hrest Hst. apply (IH _ Hrest).
    destruct (first_valid valid_emails (candidates y)); cbn [roster];
      [by apply lowercase_keys_set|done].
Qed.

(** X8.  The roster built from the forum membership loses no student
    silently.  A user of the forum with the role [student] who has a valid
    candidate address is a key of the roster, under the lowercased name;
    one who has none is named in the warning that the setup prints last:
    the text opens with the sentence of the warning and has the lowercased
    name on a line of its own, after two blanks. *)
Theorem interactive_setup_roster_accounts_for_students
    (all_users : list pz_user) (gs_emails : list string) (w w' : world)
    (r : roster_t) (x : pz_user) :
  interactive_setup_roster all_users gs_emails w = (Ok r, w') →
  x ∈ all_users →
  pz_role x = "student" →
  match first_valid (list_to_set gs_emails) (candidates x) with
  | Some _ => is_Some (Dict.get r (Str.lower (pz_name x)))
  | None =>
      ∃ before after,
        out w'
        = out w
          ++ [Print ("Warning: could not find an email for the following students."
                     +:+ before +:+ Str.nl +:+ "  " +:+ Str.lower (pz_name x)
                     +:+ after)]
  end.
Proof.
  intros Hrun Hx Hrole.
  destruct (interactive_setup_roster_run all_users gs_emails w)
    as (st & Hloop & Hsans & _ & Hres).
  rewrite Hrun in Hres. injection Hres as -> ->.
  assert (x ∈ filter (λ x, pz_role x = "student") all_users) as Hstudent
    by by apply list_elem_of_filter.
  destruct (first_valid (list_to_set gs_emails) (candidates x)) as [e|] eqn:Hfv.
  - eapply setup_loop_keys; [exact Hloop|exact Hstudent|by rewrite Hfv].
  - assert (Str.lower (pz_name x) ∈ sans_emails st) as Hin.
    { rewrite Hsans. unfold unmatched_students.
      apply list_elem_of_fmap. exists x. split; [done|].
      by apply list_elem_of_filter. }
    destruct (sans_emails_warning_names _ _ Hin) as (before & after & Htext).
    exists before, after. rewrite <-Htext.
    destruct (sans_emails st); [by apply elem_of_nil in Hin|done].
Qed.

(** Al Bee, whose one address the platform does not know, beside Jane Doe,
    who is matched. *)
Lemma interactive_setup_roster_accounts_for_students_witness :
  ∃ before after,
    [Print ("Warning: could not find an email for the following students. Check to make sure they aren't enrolled on gradescope"
            +:+ Str.nl +:+ "  al bee")]
    = [] ++ [Print ("Warning: could not find an email for the following students."
                    +:+ before +:+ Str.nl +:+ "  " +:+ "al bee" +:+ after)].
Proof.
  exact (interactive_setup_roster_accounts_for_students forum_users
           ["jane@x.edu"] quiet
           {| stdin := [];
              out := [Print ("Warning: could not find an email for the following students. Check to make sure they aren't enrolled on gradescope"
                             +:+ Str.nl +:+ "  al bee")] |}
           jane_roster
           {| pz_name := "Al Bee"; pz_email := "al@q.org"; pz_role := "student" |}
           eq_refl (list_elem_of_here _ _) eq_refl).
Defined.

(** X9.  Every key of the roster built from the forum membership is in
    lower case, so that each of its students is found by an exact match
    whatever the case of the name given to [main_extend]. *)
Theorem interactive_setup_roster_keys_match
    (get_close_matches : string → list string → nat → list string)
    (all_users : list pz_user) (gs_emails : list string) (w w' : world)
    (r : roster_t) (assignments : list assignment) (days : Z)
    (k email query : string) :
  interactive_setup_roster all_users gs_emails w = (Ok r, w') →
  Dict.get r k = Some email →
  Str.lower query = Str.lower k →
  Str.lower k = k
  ∧ exact_match get_close_matches r assignments days query email.
Proof.
  intros Hrun Hget Hquery.
  destruct (interactive_setup_roster_run all_users gs_emails w)
    as (st & Hloop & _ & _ & Hres).
  rewrite Hrun in Hres. injection Hres as -> _.
  assert (Str.lower k = k) as Hk.
  { eapply setup_loop_lowercase; [exact Hloop| |exact Hget]. by intros ? ? [=]. }
  split; [exact Hk|]. intros ambig_names email_var w0.
  apply match_name_exact. by rewrite Hquery, Hk.
Qed.

Lemma interactive_setup_roster_keys_match_witness :
  Str.lower "jane doe" = "jane doe"
  ∧ exact_match Difflib.get_close_matches jane_roster [hw1] 5 "JANE Doe"
      "jane@x.edu".
Proof.
  apply (interactive_setup_roster_keys_match Difflib.get_close_matches
           forum_users ["jane@x.edu"] quiet
           (add_out quiet [Print (sans_emails_warning ["al bee"])])
           jane_roster [hw1] 5 "jane doe" "jane@x.edu" "JANE Doe").
  - vm_compute. reflexivity.
  - reflexivity.
  - reflexivity.
Defined.

(** ** Batches, from the first name to the last prompt *)

Section BatchRuns.

Variable get_close_matches : string → list string → nat → list string.
Variable course_roster : roster_t.
Variable assignments : list assignment.
Variable days : Z.

Local Abbreviation match1 :=
  (match_name get_close_matches course_roster assignments days
     (Dict.keys course_roster)).
Local Abbreviation resolve1 :=
  (resolve_ambiguity course_roster assignments days).

Lemma entry_of_get (student_name : string) :
  is_Some (Dict.get course_roster student_name) →
  Dict.get course_roster student_name
  = Some (entry_of course_roster student_name).
Proof. intros [e He]. unfold entry_of. by rewrite He. Qed.

(** A loop over names that are all keys: one report and one round of
    extensions per name, nothing queued. *)
Lemma matching_loop_exact (names : list string) (ambig_names : ambig_t)
    (email : option string) (w : world) :
  Forall (λ q, is_Some (Dict.get course_roster (Str.lower q))) names →
  ∃ email',
    for_fold match1 names (ambig_names, email) w
    = (Ok (ambig_names, email'),
       add_out w
         (q ← names;
          resolved_events assignments days (Str.lower q)
            (entry_of course_roster (Str.lower q)))).
Proof.
  intros Hall. revert email w.
  induction Hall as [|q names Hq _ IH]; intros email w; cbn [for_fold].
  - exists email. by rewrite add_out_nil.
  - rewrite (bind_ok_run _ _ _ _ _
               (match_name_exact get_close_matches course_roster assignments
                  days _ ambig_names email q _ w (entry_of_get _ Hq))).
    destruct (IH (Some (entry_of course_roster (Str.lower q)))
                (add_out w (resolved_events assignments days (Str.lower q)
                              (entry_of course_roster (Str.lower q)))))
      as [email' ->].
    exists email'. by rewrite add_out_app.
Qed.

(** The matching loop leaves the input alone and asks nothing. *)
Lemma matching_loop_quiet (names : list string) (st : ambig_t * option string)
    (w w' : world) (r : result (ambig_t * option string)) :
  for_fold match1 names st w = (r, w') →
  stdin w' = stdin w ∧ prompts (out w') = prompts (out w)
  ∧ (r = Raise IndexError ∨ ∃ st', r = Ok st').
Proof.
  revert st w. induction names as [|q names IH]; intros [ambig_names email] w;
    cbn [for_fold].
  - rewrite mret_run. intros [= <- <-]. eauto.
  - assert (∀ evs, prompts evs = 0 →
              ∀ st1, match1 (ambig_names, email) q w = (Ok st1, add_out w evs) →
              (match1 (ambig_names, email) q ≫= for_fold match1 names) w = (r, w') →
              stdin w' = stdin w ∧ prompts (out w') = prompts (out w)
              ∧ (r = Raise IndexError ∨ ∃ st', r = Ok st')) as Hstep.
    { intros evs Hevs st1 Hturn. rewrite (bind_ok_run _ _ _ _ _ Hturn).
      intros (Hin & Hout & Hr)%IH. split; [exact Hin|]. split; [|exact Hr].
      rewrite Hout. cbn [add_out out]. rewrite prompts_app. lia. }
    destruct (Dict.get course_roster (Str.lower q)) as [e|] eqn:Hget.
    + eapply Hstep; [|by apply match_name_exact].
      unfold resolved_events. clear.
      change (Print ?x :: ?l) with ([Print x] ++ l). rewrite prompts_app.
      induction assignments as [|a l IHl]; [done|exact IHl].
    + assert (Dict.mem (Str.lower q) course_roster = false) as Hmem
        by (unfold Dict.mem; by rewrite Hget).
      destruct (get_close_matches (Str.lower q) (Dict.keys course_roster) 5)
        as [|c1 [|c2 cm]] eqn:Hcm.
      * eapply Hstep; [|by apply match_name_not_found]. done.
      * rewrite (bind_raise_run _ _ _ _ _
                   (match_name_single get_close_matches course_roster
                      assignments days _ (ambig_names, email) q c1 w Hmem Hcm)).
        intros [= <- <-]. eauto.
      * eapply Hstep; [|apply match_name_several;
                        [exact Hmem|rewrite Hcm; cbn [length]; lia]].
        done.
Qed.

End BatchRuns.

(** X10.  A batch all of whose names are keys of the roster, up to letter
    case, runs to its end without asking anything: after the header, each
    name in turn is reported with its address and extended on every
    assignment, and the input is left as it was. *)
Theorem main_extend_exact_batch
    (get_close_matches : string → list string → nat → list string)
    (course_roster : roster_t) (assignments : list assignment) (days : Z)
    (names : list string) (w : world) :
  names ≠ [] →
  Forall (λ q, is_Some (Dict.get course_roster (Str.lower q))) names →
  main_extend get_close_matches course_roster assignments days names w
  = (Ok (),
     add_out w
       (batch_header assignments
        ++ (q ← names;
            resolved_events assignments days (Str.lower q)
              (entry_of course_roster (Str.lower q))))).
Proof.
  intros Hne Hall. unfold main_extend.
  destruct names as [|q0 names0] eqn:Hnames; [done|]. rewrite <-Hnames in *.
  replace (length names =? 0)%nat with false by (by rewrite Hnames).
  rewrite print_bind.
  erewrite bind_ok_run; last first.
  { apply for_each_print_run with (text := λ a, "   " +:+ get_name a). done. }
  rewrite print_bind. unfold matching_pass.
  destruct (matching_loop_exact get_close_matches course_roster assignments days
              names [] None
              (add_out (add_out (add_out w [Print "Processing extensions for the following assignments: "])
                          ((λ a, Print ("   " +:+ get_name a)) <$> assignments))
                 [Print "For the following students:"]) Hall)
    as [email' Hloop].
  erewrite bind_ok_run; last first.
  { erewrite bind_ok_run; [|exact Hloop]. apply mret_run. }
  cbn [fst for_each]. rewrite mret_run, !add_out_app. unfold batch_header.
  do 2 f_equal. cbn [app]. by rewrite <-!app_assoc.
Qed.

Lemma main_extend_exact_batch_witness :
  main_extend Difflib.get_close_matches class_roster [hw1; hw1_bonus] 3
    ["Bob Smith"; "JANE ROE"] batch_start
  = (Ok (),
     add_out batch_start
       (batch_header [hw1; hw1_bonus]
        ++ (q ← ["Bob Smith"; "JANE ROE"];
            resolved_events [hw1; hw1_bonus] 3 (Str.lower q)
              (entry_of class_roster (Str.lower q))))).
Proof.
  apply (main_extend_exact_batch Difflib.get_close_matches class_roster
           [hw1; hw1_bonus] 3 ["Bob Smith"; "JANE ROE"] batch_start).
  - discriminate.
  - repeat constructor; by eexists.
Defined.

(** X11.  The matching pass reads no input and prompts for nothing,
    however it ends: every question about an ambiguous name comes after
    the last name has been matched.  The pass ends with its queue or with
    [IndexError], never otherwise. *)
Theorem matching_pass_asks_nothing
    (get_close_matches : string → list string → nat → list string)
    (course_roster : roster_t) (assignments : list assignment) (days : Z)
    (names : list string) (w w' : world) (r : result ambig_t) :
  matching_pass get_close_matches course_roster assignments days names w
  = (r, w') →
  stdin w' = stdin w
  ∧ prompts (out w') = prompts (out w)
  ∧ (r = Raise IndexError ∨ ∃ queue, r = Ok queue).
Proof.
  unfold matching_pass. rewrite bind_run.
  destruct (for_fold _ _ _ _) as [r1 w1] eqn:Hloop.
  apply matching_loop_quiet in Hloop as (Hin & Hout & [->|[st' ->]]).
  - intros [= <- <-]. eauto.
  - rewrite mret_run. intros [= <- <-]. eauto.
Qed.

Lemma matching_pass_asks_nothing_witness :
  stdin (add_out batch_start
           [Print "  jane doe (jane@x.edu)";
            ApplyExtension hw1 "jane@x.edu" 5;
            Print "jane oe: At least 2 found"])
  = stdin batch_start
  ∧ prompts (out (add_out batch_start
                    [Print "  jane doe (jane@x.edu)";
                     ApplyExtension hw1 "jane@x.edu" 5;
                     Print "jane oe: At least 2 found"]))
    = prompts (out batch_start)
  ∧ (Ok [("jane oe", ["jane roe"; "jane doe"])] = Raise IndexError
     ∨ ∃ queue, Ok [("jane oe", ["jane roe"; "jane doe"])] = Ok queue).
Proof.
  apply (matching_pass_asks_nothing Difflib.get_close_matches class_roster
           [hw1] 5 ["Jane Doe"; "jane oe"] batch_start).
  vm_compute. reflexivity.
Defined.

(** ** The ambiguity pass, answer by answer *)

Lemma selection_loop_accepts (n : nat) (msg line : string)
    (rest : list string) (o : list event) :
  selects n line →
  selection_loop n msg (line :: rest) o
  = (Ok (Str.decimal line - 1),
     {| stdin := rest; out := o ++ [Prompt "Selection: "] |}).
Proof.
  intros (Hdigit & Hlen & Hrange). cbn [selection_loop].
  rewrite Hdigit, (int_within_limit _ Hlen).
  assert ((Z.of_nat (Str.decimal line) - 1 <? 0)%Z
          || (Z.of_nat (Str.decimal line) - 1 >=? Z.of_nat n)%Z = false) as ->
    by (apply orb_false_iff; lia).
  do 2 f_equal. lia.
Qed.

Section Answers.

Variable course_roster : roster_t.
Variable assignments : list assignment.
Variable days : Z.

Local Abbreviation resolve1 :=
  (resolve_ambiguity course_roster assignments days).

(** Up to the answer: the name, the options and the prompt are shown and
    the answer is read. *)
Lemma resolve_ambiguity_asks (ambig_name : string) (options : list string)
    (line : string) (rest : list string) (o : list event) :
  selects (S (length options)) line →
  (print (ambig_name +:+ ": Found the following close matches:") ;;
   selection_helper (options ++ [none_option]) select_msg)
    {| stdin := line :: rest; out := o |}
  = (Ok (Str.decimal line - 1),
     {| stdin := rest; out := o ++ ambiguity_prompt ambig_name options |}).
Proof.
  intros Hline. rewrite print_bind.
  rewrite selection_helper_run by (by destruct options).
  cbn [add_out stdin out]. rewrite length_app. cbn [length].
  rewrite selection_loop_accepts by (by rewrite Nat.add_1_r).
  unfold ambiguity_prompt. do 2 f_equal. by rewrite <-!app_assoc.
Qed.

End Answers.

(** X12.  When the operator answers an ambiguous name with the number of
    the last option, [(None)], in digits that [int] converts, the name is
    skipped: the skip is printed, no extension is applied, and the pass
    goes on with the rest of the input. *)
Theorem resolve_ambiguity_none_skips
    (course_roster : roster_t) (assignments : list assignment) (days : Z)
    (ambig_name : string) (options : list string)
    (line : string) (rest : list string) (o : list event) :
  Str.isdigit line = true →
  Str.int line = Ok (S (length options)) →
  resolve_ambiguity course_roster assignments days (ambig_name, options)
    {| stdin := line :: rest; out := o |}
  = (Ok (),
     {| stdin := rest;
        out := o ++ ambiguity_prompt ambig_name options
               ++ [Print ("Skipping " +:+ ambig_name)] |}).
Proof.
  intros Hdigit [Hlen Hint]%int_ok. unfold resolve_ambiguity.
  pose proof (resolve_ambiguity_asks ambig_name options line rest o
                ltac:(split; [done|split; [done|lia]])) as Hasks.
  rewrite print_bind in Hasks. rewrite print_bind.
  rewrite (bind_ok_run _ _ _ _ _ Hasks).
  replace (Str.decimal line - 1 =? length options)%nat with true
    by (symmetry; apply Nat.eqb_eq; lia).
  rewrite print_run. unfold add_out. cbn [stdin out]. by rewrite <-app_assoc.
Qed.

Lemma resolve_ambiguity_none_skips_witness :
  resolve_ambiguity class_roster [hw1] 5 ("jane oe", ["jane roe"; "jane doe"])
    {| stdin := "3" :: ["1"]; out := [] |}
  = (Ok (),
     {| stdin := ["1"];
        out := [] ++ ambiguity_prompt "jane oe" ["jane roe"; "jane doe"]
               ++ [Print ("Skipping " +:+ "jane oe")] |}).
Proof.
  apply (resolve_ambiguity_none_skips class_roster [hw1] 5 "jane oe"
           ["jane roe"; "jane doe"] "3" ["1"] []); reflexivity.
Defined.

(** X13.  When the operator answers an ambiguous name with the number of
    one of its close matches, in digits that [int] converts, and that match
    is a key of the roster, the chosen student is reported with the
    roster's address and extended on every assignment, whatever name was
    typed on the command line. *)
Theorem resolve_ambiguity_pick_applies
    (course_roster : roster_t) (assignments : list assignment) (days : Z)
    (ambig_name : string) (options : list string)
    (line : string) (rest : list string) (o : list event)
    (number : nat) (student_name email : string) :
  Str.isdigit line = true →
  Str.int line = Ok number →
  1 ≤ number →
  options !! (number - 1) = Some student_name →
  Dict.get course_roster student_name = Some email →
  resolve_ambiguity course_roster assignments days (ambig_name, options)
    {| stdin := line :: rest; out := o |}
  = (Ok (),
     {| stdin := rest;
        out := o ++ ambiguity_prompt ambig_name options
               ++ resolved_events assignments days student_name email |}).
Proof.
  intros Hdigit [Hlen <-]%int_ok Hpos Hpick Hget. unfold resolve_ambiguity.
  pose proof (lookup_lt_Some _ _ _ Hpick) as Hlt.
  pose proof (resolve_ambiguity_asks ambig_name options line rest o
                ltac:(split; [done|split; [done|lia]])) as Hasks.
  rewrite print_bind in Hasks. rewrite print_bind.
  rewrite (bind_ok_run _ _ _ _ _ Hasks).
  replace (Str.decimal line - 1 =? length options)%nat with false
    by (symmetry; apply Nat.eqb_neq; lia).
  unfold index. rewrite Hpick, lift_ok_bind.
  unfold Dict.getitem. rewrite Hget, lift_ok_bind, print_bind.
  rewrite (apply_all_run course_roster assignments days _ _ _ Hget).
  rewrite add_out_app. unfold add_out, resolved_events. cbn [stdin out app].
  by rewrite <-app_assoc.
Qed.

Lemma resolve_ambiguity_pick_applies_witness :
  resolve_ambiguity class_roster [hw1; hw1_bonus] 5
    ("jane oe", ["jane roe"; "jane doe"])
    {| stdin := "2" :: []; out := [] |}
  = (Ok (),
     {| stdin := [];
        out := [] ++ ambiguity_prompt "jane oe" ["jane roe"; "jane doe"]
               ++ resolved_events [hw1; hw1_bonus] 5 "jane doe" "jane@x.edu" |}).
Proof.
  apply (resolve_ambiguity_pick_applies class_roster [hw1; hw1_bonus] 5
           "jane oe" ["jane roe"; "jane doe"] "2" [] [] 2 "jane doe" "jane@x.edu");
    first [reflexivity | lia].
Defined.

(** ** How a batch can end *)

Lemma keys_get {V} (d : Dict.dict V) (k : string) :
  k ∈ Dict.keys d → is_Some (Dict.get d k).
Proof.
  induction d as [|[k' v'] d IH]; cbn.
  - by intros ?%elem_of_nil.
  - intros [->|Hin]%elem_of_cons.
    + by rewrite String.eqb_refl.
    + destruct (String.eqb k k'); [done|by apply IH].
Qed.

Section Outcomes.

Variable get_close_matches : string → list string → nat → list string.
Variable course_roster : roster_t.
Variable assignments : list assignment.
Variable days : Z.

(** The matcher answers with possibilities it was given. *)
Hypothesis matches_are_possibilities :
  ∀ word possibilities n,
    get_close_matches word possibilities n ⊆ possibilities.

Lemma ambiguous_names_keys (names : list string) :
  Forall (λ entry : string * list string, entry.2 ⊆ Dict.keys course_roster)
    (ambiguous_names get_close_matches course_roster names).
Proof.
  unfold ambiguous_names. induction names as [|q names IH]; [constructor|].
  cbn [omap list_omap].
  destruct (Dict.mem (Str.lower q) course_roster); [exact IH|].
  destruct (get_close_matches (Str.lower q) (Dict.keys course_roster) 5)
    as [|c cm] eqn:Hcm; [exact IH|].
  constructor; [|exact IH]. cbn [snd]. rewrite <-Hcm.
  apply matches_are_possibilities.
Qed.

(** The prompt loop ends with an index, at the end of the input, or at a
    line that [int] refuses. *)
Lemma selection_loop_outcome (n : nat) (msg : string) (lines : list string)
    (o : list event) :
  (selection_loop n msg lines o).1 = Raise EOFError
  ∨ (selection_loop n msg lines o).1 = Raise ValueError
  ∨ ∃ ix, (selection_loop n msg lines o).1 = Ok ix.
Proof.
  revert o. induction lines as [|line rest IH]; intros o; cbn [selection_loop].
  - by left.
  - destruct (Str.isdigit line); [|apply IH].
    unfold Str.int. destruct (_ <? _)%Z; [right; by left|].
    destruct (_ || _); [apply IH|]. right. right. by eexists.
Qed.

(** One turn of the ambiguity loop over options that are keys: it ends
    well, at the end of the input, or at a line that [int] refuses. *)
Lemma resolve_ambiguity_outcome (entry : string * list string)
    (w w' : world) (r : result ()) :
  entry.2 ⊆ Dict.keys course_roster →
  resolve_ambiguity course_roster assignments days entry w = (r, w') →
  r = Ok () ∨ r = Raise EOFError ∨ r = Raise ValueError.
Proof.
  destruct entry as [ambig_name options]. cbn [snd]. intros Hkeys.
  unfold resolve_ambiguity. rewrite print_bind, bind_run.
  destruct (selection_helper _ _ _) as [r1 w1] eqn:Hsel.
  pose proof Hsel as Hsound. apply selection_helper_sound in Hsound as [_ Hix].
  rewrite selection_helper_run in Hsel by (by destruct options).
  pose proof (selection_loop_outcome (length (options ++ [none_option]))
                select_msg
                (stdin (add_out w [Print (ambig_name +:+ ": Found the following close matches:")]))
                (out (add_out w [Print (ambig_name +:+ ": Found the following close matches:")])
                 ++ Print select_msg
                    :: ((λ p, Print ("  (" +:+ pretty (p.1 + 1) +:+ ") " +:+ p.2))
                        <$> enumerate (options ++ [none_option]))))
    as Hout.
  rewrite Hsel in Hout. cbn [fst] in Hout.
  destruct Hout as [->|[->|[ix ->]]];
    [intros [= <- _]; right; by left|intros [= <- _]; right; by right|].
  specialize (Hix ix eq_refl). rewrite length_app in Hix. cbn [length] in Hix.
  destruct (Nat.eqb_spec ix (length options)) as [->|Hne].
  - rewrite print_run. intros [= <- _]. by left.
  - destruct (lookup_lt_is_Some_2 options ix ltac:(lia)) as [student_name Hname].
    unfold index. rewrite Hname, lift_ok_bind.
    destruct (keys_get course_roster student_name) as [e Hget].
    { apply Hkeys. by eapply list_elem_of_lookup_2. }
    unfold Dict.getitem. rewrite Hget, lift_ok_bind, print_bind.
    rewrite (apply_all_run course_roster assignments days _ _ _ Hget).
    intros [= <- _]. by left.
Qed.

Lemma resolve_loop_outcome (queue : ambig_t) (w w' : world) (r : result ()) :
  Forall (λ entry : string * list string, entry.2 ⊆ Dict.keys course_roster)
    queue →
  for_each queue (resolve_ambiguity course_roster assignments days) w = (r, w') →
  r = Ok () ∨ r = Raise EOFError ∨ r = Raise ValueError.
Proof.
  intros Hall. revert w.
  induction Hall as [|entry queue Hentry _ IH]; intros w; cbn [for_each].
  - rewrite mret_run. intros [= <- _]. by left.
  - rewrite bind_run.
    destruct (resolve_ambiguity _ _ _ entry w) as [r1 w1] eqn:Hturn.
    apply (resolve_ambiguity_outcome _ _ _ _ Hentry) in Hturn as [->|[->| ->]].
    + apply IH.
    + intros [= <- _]. right. by left.
    + intros [= <- _]. right. by right.
Qed.

End Outcomes.

(** X14.  Once the arguments are parsed and the course file and the
    assignments are loaded, the rest of [main_extend] (the exit of lines
    239-241 and the passes of lines 249-285), with a matcher that answers
    with possibilities it was given, as [difflib.get_close_matches] does,
    ends in one of five ways: at its end, with [SystemExit] for no names,
    with [IndexError] from the matching pass, with [EOFError] from a prompt
    at the end of the input, or with [ValueError] from [int] at a prompt.
    A look-up in the roster never fails. *)
Theorem main_extend_outcomes
    (get_close_matches : string → list string → nat → list string)
    (course_roster : roster_t) (assignments : list assignment) (days : Z)
    (names : list string) (w w' : world) (r : result ()) :
  (∀ word possibilities n,
     get_close_matches word possibilities n ⊆ possibilities) →
  main_extend get_close_matches course_roster assignments days names w
  = (r, w') →
  batch_outcome r ∧ (r = Raise SystemExit ↔ names = []).
Proof.
  intros Hsub. unfold main_extend, batch_outcome.
  destruct names as [|q0 names0] eqn:Hnames.
  { cbn [length Nat.eqb]. rewrite print_bind. intros [= <- _]. split; [|done].
    right. by left. }
  rewrite <-Hnames.
  replace (length names =? 0)%nat with false by (by rewrite Hnames).
  rewrite print_bind.
  erewrite bind_ok_run; last first.
  { apply for_each_print_run with (text := λ a, "   " +:+ get_name a). done. }
  rewrite print_bind, bind_run.
  destruct (matching_pass _ _ _ _ _ _) as [r1 w1] eqn:Hpass.
  unfold matching_pass in Hpass. rewrite bind_run in Hpass.
  destruct (for_fold _ _ _ _) as [r2 w2] eqn:Hloop.
  pose proof Hloop as Hquiet.
  apply matching_loop_quiet in Hquiet as (_ & _ & [->|[[queue email] ->]]).
  - injection Hpass as <- <-. intros [= <- _]. split; [|by rewrite Hnames].
    right. right. by left.
  - rewrite mret_run in Hpass. injection Hpass as <- <-. cbn [fst].
    apply matching_loop_sound in Hloop as (resolved & _ & Hqueue).
    destruct (Hqueue _ _ eq_refl) as [Hq _]. rewrite Hq. cbn [app].
    intros [->|[->| ->]]%resolve_loop_outcome;
      [| | |by apply ambiguous_names_keys..];
      (split; [auto 6|by rewrite Hnames]).
Qed.

Lemma insert_desc_elem (p q : Difflib.score * string)
    (l : list (Difflib.score * string)) :
  q ∈ Difflib.insert_desc p l → q = p ∨ q ∈ l.
Proof.
  induction l as [|x l IH]; cbn [Difflib.insert_desc].
  - intros ->%list_elem_of_singleton. by left.
  - destruct (Difflib.pair_ltb p x).
    + intros [->|[->|Hq]%IH]%elem_of_cons; [right; left|by left|right; by right].
    + intros [->|Hq]%elem_of_cons; [by left|by right].
Qed.

(** The model of [difflib] answers with possibilities it was given. *)
Lemma difflib_matches_are_possibilities (word : string)
    (possibilities : list string) (n : nat) :
  Difflib.get_close_matches word possibilities n ⊆ possibilities.
Proof.
  intros x. unfold Difflib.get_close_matches, Difflib.nlargest.
  intros (p & -> & Hp)%list_elem_of_fmap.
  apply elem_of_take in Hp as (i & Hp & _).
  apply list_elem_of_lookup_2 in Hp.
  assert (∀ l, p ∈ foldr Difflib.insert_desc [] l → p ∈ l) as Hsorted.
  { induction l as [|y l IH]; cbn [foldr]; [done|].
    intros [->|Hin]%insert_desc_elem; [left|right; by apply IH]. }
  apply Hsorted, list_elem_of_omap in Hp as (y & Hy & Hsome).
  destruct (_ && _) in Hsome; [|done]. by injection Hsome as <-.
Qed.

Lemma main_extend_outcomes_witness :
  batch_outcome (Raise IndexError)
  ∧ ((Raise IndexError : result ()) = Raise SystemExit
     ↔ ["Jane Doe"; "jane do"] = []).
Proof.
  apply (main_extend_outcomes Difflib.get_close_matches jane_roster [hw1] 5
           ["Jane Doe"; "jane do"] quiet
           (add_out quiet (batch_header [hw1]
                           ++ resolved_events [hw1] 5 "jane doe" "jane@x.edu"))
           (Raise IndexError)).
  - apply difflib_matches_are_possibilities.
  - vm_compute. reflexivity.
Defined.

(** ** Settings and course files *)

Lemma F_bind_run {A B} (m : F A) (f : A → F B) (mc : machine) :
  (m ≫= f) mc = match m mc with
                | (Returns a, mc') => f a mc'
                | (Fails e, mc') => (Fails e, mc')
                end.
Proof. reflexivity. Qed.

Lemma F_bind_returns {A B} (m : F A) (f : A → F B) (mc mc' : machine) (a : A) :
  m mc = (Returns a, mc') → (m ≫= f) mc = f a mc'.
Proof. intros H. by rewrite F_bind_run, H. Qed.

Lemma F_bind_fails {A B} (m : F A) (f : A → F B) (mc mc' : machine) (e : error) :
  m mc = (Fails e, mc') → (m ≫= f) mc = (Fails e, mc').
Proof. intros H. by rewrite F_bind_run, H. Qed.

Lemma F_ret_bind {A B} (a : A) (f : A → F B) (mc : machine) :
  (mret a ≫= f) mc = f a mc.
Proof. reflexivity. Qed.

Lemma of_outcome_bind {A B} (a : A) (f : A → F B) (mc : machine) :
  (of_outcome (Returns a) ≫= f) mc = f a mc.
Proof. reflexivity. Qed.

(** The file of a course under the default directory is not the settings
    file. *)
Lemma cfg_path_not_settings (tools_dir identifier : string) :
  cfg_path (default_course_path tools_dir) identifier ≠ settings_path tools_dir.
Proof.
  unfold cfg_path, default_course_path, settings_path.
  rewrite append_assoc. intros Heq. by apply (inj (String.app tools_dir)) in Heq.
Qed.

(** X15.  [initialize_settings] always returns with a settings file in
    place and never touches another file.  A file that is already there is
    left as it is, without a word; so a second call changes nothing. *)
Theorem initialize_settings_keeps_existing
    (tools_dir path : string) (mc : machine) :
  ∃ mc',
    initialize_settings tools_dir path mc = (Returns (), mc')
    ∧ disk mc' !! path
      = Some (default (SettingsFile (default_settings tools_dir))
                (disk mc !! path))
    ∧ (is_Some (disk mc !! path) → mc' = mc)
    ∧ (∀ other, other ≠ path → disk mc' !! other = disk mc !! other)
    ∧ initialize_settings tools_dir path mc' = (Returns (), mc').
Proof.
  unfold initialize_settings, exists_file. rewrite !F_bind_run.
  destruct (disk mc !! path) as [f|] eqn:Hfile.
  - rewrite bool_decide_true by done. exists mc. rewrite F_bind_run, Hfile.
    rewrite bool_decide_true by done. by repeat split.
  - rewrite bool_decide_false by (by intros [? ?]).
    eexists. split; [reflexivity|]. rewrite F_bind_run. cbn [disk console].
    rewrite !lookup_insert_eq. rewrite bool_decide_true by (by eexists).
    split; [done|]. split; [by intros [? ?]|]. split; [|done].
    intros other Hne. by rewrite lookup_insert_ne.
Qed.

Lemma make_course_entry_run (tools_dir identifier gs_id : string)
    (roster : roster_t) (course_path : string) (mc : machine) (s : settings_t) :
  disk mc !! settings_path tools_dir = Some (SettingsFile s) →
  Str.contains_char "/" identifier = false →
  ∃ w',
    make_course_entry tools_dir identifier gs_id roster course_path mc
    = (Returns (),
       {| console := w';
          disk := <[settings_path tools_dir := SettingsFile (settings_after s identifier)]>
                    (<[cfg_path course_path identifier :=
                         CourseFile {| gradescope_id := gs_id;
                                       info_roster := roster |}]> (disk mc)) |})
    ∧ stdin w' = stdin (console mc).
Proof.
  intros Hsettings Hslash. unfold make_course_entry, load_settings.
  rewrite F_bind_run, Hsettings. unfold settings_after, write_course_file.
  rewrite Hslash.
  destruct s as [cp cs dn dl dc]. cbn [courses default_course default_to_newest].
  destruct (bool_decide (identifier ∈ cs)), dc as [d|], dn;
    eexists; (split; [reflexivity|done]).
Qed.

(** X16.  With the settings in place and an identifier without [/], which
    names a file of the default course directory, [make_course_entry]
    returns and leaves the course file with the platform's id and the
    roster it was given.  In the settings the identifier is listed, once
    more than before only when it was not listed yet; it becomes the
    default course when there was none or when the newest course is to be
    the default, and the default is kept otherwise.  No other file changes
    and no input is read. *)
Theorem make_course_entry_effect
    (tools_dir identifier gs_id : string) (roster : roster_t)
    (mc : machine) (s : settings_t) :
  disk mc !! settings_path tools_dir = Some (SettingsFile s) →
  Str.contains_char "/" identifier = false →
  ∃ mc',
    make_course_entry tools_dir identifier gs_id roster
      (default_course_path tools_dir) mc
    = (Returns (), mc')
    ∧ disk mc' !! cfg_path (default_course_path tools_dir) identifier
      = Some (CourseFile {| gradescope_id := gs_id; info_roster := roster |})
    ∧ disk mc' !! settings_path tools_dir
      = Some (SettingsFile (settings_after s identifier))
    ∧ (∀ other,
         other ≠ settings_path tools_dir →
         other ≠ cfg_path (default_course_path tools_dir) identifier →
         disk mc' !! other = disk mc !! other)
    ∧ stdin (console mc') = stdin (console mc).
Proof.
  intros Hsettings Hslash.
  destruct (make_course_entry_run tools_dir identifier gs_id roster
              (default_course_path tools_dir) mc s Hsettings Hslash)
    as (w' & Hrun & Hin).
  eexists. split; [exact Hrun|]. cbn [disk console].
  split; [|split; [|split]].
  - rewrite lookup_insert_ne by (apply not_eq_sym, cfg_path_not_settings).
    apply lookup_insert_eq.
  - apply lookup_insert_eq.
  - intros other H1 H2. by rewrite !lookup_insert_ne.
  - exact Hin.
Qed.

Lemma make_course_entry_effect_witness :
  ∃ mc',
    make_course_entry "/opt/ta" "cs101" "987" jane_roster
      (default_course_path "/opt/ta") settled_machine
    = (Returns (), mc')
    ∧ disk mc' !! cfg_path (default_course_path "/opt/ta") "cs101"
      = Some (CourseFile {| gradescope_id := "987"; info_roster := jane_roster |})
    ∧ disk mc' !! settings_path "/opt/ta"
      = Some (SettingsFile (settings_after (default_settings "/opt/ta") "cs101"))
    ∧ (∀ other,
         other ≠ settings_path "/opt/ta" →
         other ≠ cfg_path (default_course_path "/opt/ta") "cs101" →
         disk mc' !! other = disk settled_machine !! other)
    ∧ stdin (console mc') = stdin (console settled_machine).
Proof.
  apply (make_course_entry_effect "/opt/ta" "cs101" "987" jane_roster
           settled_machine (default_settings "/opt/ta")).
  - apply lookup_singleton_eq.
  - reflexivity.
Defined.

(** X17.  Unless the settings file is in place, [make_course_entry] fails
    before anything is written or printed: with [FileNotFoundError] when
    there is no file at the path of the settings, and with [KeyError], at
    the look-up of ["courses"], when the file there is of another kind.  A
    course file is only ever written beside readable settings. *)
Theorem make_course_entry_needs_settings
    (tools_dir identifier gs_id : string) (roster : roster_t)
    (course_path : string) (mc : machine) :
  (∀ s, disk mc !! settings_path tools_dir ≠ Some (SettingsFile s)) →
  make_course_entry tools_dir identifier gs_id roster course_path mc
  = (Fails match disk mc !! settings_path tools_dir with
           | None => FileNotFoundError
           | Some _ => Py KeyError
           end,
     mc).
Proof.
  intros Hno. unfold make_course_entry, load_settings. rewrite F_bind_run.
  destruct (disk mc !! settings_path tools_dir) as [[s|c]|] eqn:Hfile.
  - by destruct (Hno s).
  - reflexivity.
  - reflexivity.
Qed.

(** On a machine with nothing on disk, and on one where the file of a
    course lies at the path of the settings. *)
Lemma make_course_entry_needs_settings_witness :
  make_course_entry "/opt/ta" "cs101" "987" jane_roster
    (default_course_path "/opt/ta") fresh_machine
  = (Fails FileNotFoundError, fresh_machine)
  ∧ make_course_entry "/opt/ta" "cs101" "987" jane_roster
      (default_course_path "/opt/ta") misplaced_machine
    = (Fails (Py KeyError), misplaced_machine).
Proof.
  split.
  - apply (make_course_entry_needs_settings "/opt/ta" "cs101" "987" jane_roster
             (default_course_path "/opt/ta") fresh_machine).
    intros s. discriminate.
  - apply (make_course_entry_needs_settings "/opt/ta" "cs101" "987" jane_roster
             (default_course_path "/opt/ta") misplaced_machine).
    intros s. cbn [disk misplaced_machine]. rewrite lookup_singleton_eq.
    discriminate.
Defined.

Lemma settings_after_ok (s : settings_t) (identifier : string) :
  settings_ok s →
  settings_ok (settings_after s identifier)
  ∧ identifier ∈ courses (settings_after s identifier)
  ∧ is_Some (default_course (settings_after s identifier)).
Proof.
  intros [Hnodup Hdefault]. unfold settings_ok, settings_after.
  cbn [courses default_course].
  assert (identifier
          ∈ (if bool_decide (identifier ∈ courses s) then courses s
             else courses s ++ [identifier])) as Hin.
  { case_bool_decide; [done|]. apply elem_of_app. right. apply list_elem_of_here. }
  split; [split|split; [exact Hin|]].
  - case_bool_decide; [done|]. apply NoDup_app. split; [done|]. split.
    + by intros x Hx ->%list_elem_of_singleton.
    + apply NoDup_singleton.
  - intros d Hd.
    assert (∀ x, x ∈ courses s →
              x ∈ (if bool_decide (identifier ∈ courses s) then courses s
                   else courses s ++ [identifier])) as Hkeep.
    { intros x Hx. case_bool_decide; [done|]. apply elem_of_app. by left. }
    destruct (default_course s) as [d0|] eqn:Hd0.
    + destruct (default_to_newest s); injection Hd as <-; [done|].
      by apply Hkeep, Hdefault.
    + by injection Hd as <-.
  - destruct (default_course s); [destruct (default_to_newest s)|]; done.
Qed.

(** X18.  [make_course_entry], for an identifier without [/] and the
    default course directory, keeps the settings file well formed: when no
    course is listed twice and the default course, if there is one, is
    listed, the same holds of the settings it writes back.  In them the
    identifier is listed and a default course is set, so that the parser
    of [main_extend] finds its choices and its default. *)
Theorem make_course_entry_keeps_settings_ok
    (tools_dir identifier gs_id : string) (roster : roster_t)
    (mc : machine) (s : settings_t) :
  disk mc !! settings_path tools_dir = Some (SettingsFile s) →
  Str.contains_char "/" identifier = false →
  settings_ok s →
  ∃ mc' s',
    make_course_entry tools_dir identifier gs_id roster
      (default_course_path tools_dir) mc
    = (Returns (), mc')
    ∧ disk mc' !! settings_path tools_dir = Some (SettingsFile s')
    ∧ settings_ok s'
    ∧ identifier ∈ courses s'
    ∧ is_Some (default_course s').
Proof.
  intros Hfile Hslash Hok.
  destruct (make_course_entry_run tools_dir identifier gs_id roster
              (default_course_path tools_dir) mc s Hfile Hslash)
    as (w' & Hrun & _).
  eexists _, (settings_after s identifier). split; [exact Hrun|].
  split; [apply lookup_insert_eq|]. by apply settings_after_ok.
Qed.

Lemma make_course_entry_keeps_settings_ok_witness :
  ∃ mc' s',
    make_course_entry "/opt/ta" "cs101" "987" jane_roster
      (default_course_path "/opt/ta") settled_machine
    = (Returns (), mc')
    ∧ disk mc' !! settings_path "/opt/ta" = Some (SettingsFile s')
    ∧ settings_ok s'
    ∧ "cs101" ∈ courses s'
    ∧ is_Some (default_course s').
Proof.
  apply (make_course_entry_keeps_settings_ok "/opt/ta" "cs101" "987" jane_roster
           settled_machine (default_settings "/opt/ta")).
  - apply lookup_singleton_eq.
  - reflexivity.
  - split; [apply NoDup_nil_2|]. intros d. discriminate.
Defined.

(** ** The entry point *)

Section Main.

Variable tools_dir : string.
Variable interactive_setup : F unit.
Variable main_configure : F unit.
Variable parse_args : list string → string → Z → list string → outcome args_t.
Variable get_assignments : string → string → outcome (list assignment).
Variable get_close_matches : string → list string → nat → list string.

Local Abbreviation main1 :=
  (main tools_dir interactive_setup main_configure parse_args get_assignments
     get_close_matches).
Local Abbreviation extend1 :=
  (main_extend_argv parse_args get_assignments get_close_matches).

(** [extend] with a default course, arguments that parse, the course file
    in place and the assignments listed: the passes run on the roster of
    the course file. *)
Lemma main_extend_argv_run (s : settings_t) (argv : list string)
    (mc : machine) (d : string) (args : args_t) (c : course_info_t)
    (assignments : list assignment) :
  default_course s = Some d →
  parse_args (courses s) d (default_length s) argv = Returns args →
  arg_names args ≠ [] →
  disk mc !! cfg_path (course_path s) (arg_id args) = Some (CourseFile c) →
  get_assignments (gradescope_id c) (arg_string args) = Returns assignments →
  extend1 s argv mc
  = on_console (main_extend get_close_matches (info_roster c) assignments
                  (arg_days args) (arg_names args)) mc.
Proof.
  intros Hd Hparse Hnames Hfile Hassign. unfold main_extend_argv.
  rewrite Hd, F_ret_bind, Hparse, of_outcome_bind.
  assert ((length (arg_names args) =? 0)%nat = false) as ->
    by (by destruct (arg_names args)).
  rewrite F_ret_bind. unfold load_course_info at 1.
  rewrite F_bind_run, Hfile, Hassign. by rewrite of_outcome_bind.
Qed.

(** With a course in the settings, [main] goes to the command at once. *)
Lemma main_with_courses (s : settings_t) (prog command : string)
    (rest : list string) (mc : machine) :
  disk mc !! settings_path tools_dir = Some (SettingsFile s) →
  courses s ≠ [] →
  main1 (prog :: command :: rest) mc
  = (if String.eqb command "extend" then extend1 s rest
     else if String.eqb command "configure" then main_configure
     else on_console (print "Right now extend is the only command.")) mc.
Proof.
  intros Hfile Hcourses. unfold main, exists_file, load_settings.
  rewrite F_bind_run, Hfile. rewrite bool_decide_true by (by eexists).
  rewrite F_bind_run. cbn [mret F_ret]. rewrite F_bind_run, Hfile.
  destruct (courses s) as [|c0 cs] eqn:Hc; [done|]. cbn [length Nat.eqb].
  by rewrite F_bind_run.
Qed.

End Main.

(** X19.  On a first run, with no settings file, [main] with the command
    [extend] never reaches the extensions: it writes the default settings
    and runs the setup, and when the setup returns, [main_extend] looks up
    the default course in the settings that [main] loaded before the setup,
    which have none, and fails with [KeyError], whatever the setup has
    written and whatever the arguments. *)
Theorem main_first_run_extend_fails
    (tools_dir : string) (interactive_setup main_configure : F unit)
    (parse_args : list string → string → Z → list string → outcome args_t)
    (get_assignments : string → string → outcome (list assignment))
    (get_close_matches : string → list string → nat → list string)
    (prog : string) (rest : list string) (mc mc1 : machine) :
  disk mc !! settings_path tools_dir = None →
  interactive_setup (machine_before_setup tools_dir mc) = (Returns (), mc1) →
  main tools_dir interactive_setup main_configure parse_args get_assignments
    get_close_matches (prog :: "extend" :: rest) mc
  = (Fails (Py KeyError), mc1).
Proof.
  intros Hnone Hsetup. unfold main, exists_file.
  rewrite F_bind_run, Hnone. rewrite bool_decide_false by (by intros [? ?]).
  rewrite F_bind_run.
  assert ((on_console (print "No settings found, initializing settings file") ;;
           initialize_settings tools_dir (settings_path tools_dir)) mc
          = (Returns (),
             {| console := add_out (console mc)
                             [Print "No settings found, initializing settings file";
                              Print "Settings file not found, initializing to defaults."];
                disk := <[settings_path tools_dir := SettingsFile (default_settings tools_dir)]>
                          (disk mc) |})) as ->.
  { rewrite F_bind_run. unfold on_console at 1. rewrite print_run.
    unfold initialize_settings, exists_file. rewrite F_bind_run. cbn [disk console].
    rewrite Hnone. rewrite bool_decide_false by (by intros [? ?]).
    rewrite F_bind_run. unfold on_console. rewrite print_run. cbn [disk console].
    unfold write_file. cbn [disk console]. by rewrite add_out_app. }
  unfold load_settings. rewrite F_bind_run. cbn [disk]. rewrite lookup_insert_eq.
  cbn [courses default_settings length Nat.eqb]. rewrite F_bind_run.
  assert ((on_console (print "No courses found, entering setup..") ;;
           interactive_setup)
            {| console := add_out (console mc)
                            [Print "No settings found, initializing settings file";
                             Print "Settings file not found, initializing to defaults."];
               disk := <[settings_path tools_dir := SettingsFile (default_settings tools_dir)]>
                         (disk mc) |}
          = (Returns (), mc1)) as ->.
  { rewrite F_bind_run. unfold on_console. rewrite print_run. cbn [disk console].
    rewrite add_out_app. exact Hsetup. }
  reflexivity.
Qed.

Lemma main_first_run_extend_fails_witness :
  ∃ mc1,
    setup_cs101 (machine_before_setup "/opt/ta" fresh_machine) = (Returns (), mc1)
    ∧ disk mc1 !! cfg_path (default_course_path "/opt/ta") "cs101"
      = Some (CourseFile {| gradescope_id := "987"; info_roster := jane_roster |})
    ∧ main "/opt/ta" setup_cs101 (mret ()) parse_last_name one_assignment
        Difflib.get_close_matches extend_jane fresh_machine
      = (Fails (Py KeyError), mc1).
Proof.
  destruct (make_course_entry_run "/opt/ta" "cs101" "987" jane_roster
              (default_course_path "/opt/ta")
              (machine_before_setup "/opt/ta" fresh_machine)
              (default_settings "/opt/ta") (lookup_insert_eq _ _ _) eq_refl)
    as (w' & Hrun & _).
  eexists. split; [exact Hrun|]. split.
  - cbn [disk].
    rewrite lookup_insert_ne by (apply not_eq_sym, cfg_path_not_settings).
    apply lookup_insert_eq.
  - apply (main_first_run_extend_fails "/opt/ta" setup_cs101 (mret ())
             parse_last_name one_assignment Difflib.get_close_matches
             "gs-tools.py" ["-s"; "hw1"; "Jane Doe"] fresh_machine);
      [reflexivity|exact Hrun].
Defined.

(** X20.  On a run that finds a course in the settings, [main] does not
    enter the setup, and the command [extend] runs the matching and
    ambiguity passes on the roster stored in the file of the course that
    the arguments name, for the assignments the platform lists and the
    names and days of the arguments; nothing is written to the disk. *)
Theorem main_extend_runs_on_stored_roster
    (tools_dir : string) (interactive_setup main_configure : F unit)
    (parse_args : list string → string → Z → list string → outcome args_t)
    (get_assignments : string → string → outcome (list assignment))
    (get_close_matches : string → list string → nat → list string)
    (prog : string) (rest : list string) (mc : machine)
    (s : settings_t) (d : string) (args : args_t) (c : course_info_t)
    (assignments : list assignment) :
  disk mc !! settings_path tools_dir = Some (SettingsFile s) →
  courses s ≠ [] →
  default_course s = Some d →
  parse_args (courses s) d (default_length s) rest = Returns args →
  arg_names args ≠ [] →
  disk mc !! cfg_path (course_path s) (arg_id args) = Some (CourseFile c) →
  get_assignments (gradescope_id c) (arg_string args) = Returns assignments →
  ∃ r w',
    main_extend get_close_matches (info_roster c) assignments (arg_days args)
      (arg_names args) (console mc) = (r, w')
    ∧ main tools_dir interactive_setup main_configure parse_args get_assignments
        get_close_matches (prog :: "extend" :: rest) mc
      = (match r with Ok a => Returns a | Raise e => Fails (Py e) end,
         {| console := w'; disk := disk mc |}).
Proof.
  intros Hfile Hcourses Hd Hparse Hnames Hcfg Hassign.
  rewrite (main_with_courses _ _ _ _ _ _ _ _ _ _ _ Hfile Hcourses).
  cbn [String.eqb Ascii.eqb Bool.eqb].
  rewrite (main_extend_argv_run _ _ _ _ _ _ _ _ _ _ Hd Hparse Hnames Hcfg Hassign).
  unfold on_console.
  destruct (main_extend _ _ _ _ _ _) as [[a|e] w'] eqn:Hrun;
    eexists _, _; by split.
Qed.

Lemma main_extend_runs_on_stored_roster_witness :
  ∃ r w',
    main_extend Difflib.get_close_matches jane_roster [hw1] 5 ["Jane Doe"] quiet
    = (r, w')
    ∧ main "/opt/ta" (fail FileNotFoundError) (mret ()) parse_last_name
        one_assignment Difflib.get_close_matches extend_jane configured_machine
      = (match r with Ok a => Returns a | Raise e => Fails (Py e) end,
         {| console := w'; disk := disk configured_machine |}).
Proof.
  apply (main_extend_runs_on_stored_roster "/opt/ta" (fail FileNotFoundError)
           (mret ()) parse_last_name one_assignment Difflib.get_close_matches
           "gs-tools.py" ["-s"; "hw1"; "Jane Doe"] configured_machine
           (settings_after (default_settings "/opt/ta") "cs101") "cs101"
           {| arg_id := "cs101"; arg_names := ["Jane Doe"]; arg_days := 5;
              arg_string := "hw1" |}
           {| gradescope_id := "987"; info_roster := jane_roster |} [hw1]).
  - apply lookup_insert_eq.
  - discriminate.
  - reflexivity.
  - reflexivity.
  - discriminate.
  - cbn [disk configured_machine].
    rewrite lookup_insert_ne by (apply not_eq_sym, cfg_path_not_settings).
    apply lookup_insert_eq.
  - reflexivity.
Defined.

(** X21.  What [make_course_entry] stores is what a later run extends
    with: after the entry for an identifier is made under the default
    course directory, which is where the settings point, a run of [main]
    with [extend] for that identifier does without the setup and runs the
    passes on the very roster that was stored, with the assignments of the
    stored platform id. *)
Theorem course_entry_then_extend
    (tools_dir : string) (interactive_setup main_configure : F unit)
    (parse_args : list string → string → Z → list string → outcome args_t)
    (get_assignments : string → string → outcome (list assignment))
    (get_close_matches : string → list string → nat → list string)
    (identifier gs_id : string) (roster : roster_t)
    (prog : string) (rest : list string) (mc : machine)
    (s : settings_t) (d : string) (args : args_t)
    (assignments : list assignment) :
  disk mc !! settings_path tools_dir = Some (SettingsFile s) →
  course_path s = default_course_path tools_dir →
  Str.contains_char "/" identifier = false →
  default_course (settings_after s identifier) = Some d →
  parse_args (courses (settings_after s identifier)) d (default_length s) rest
  = Returns args →
  arg_id args = identifier →
  arg_names args ≠ [] →
  get_assignments gs_id (arg_string args) = Returns assignments →
  ∃ mc' r w',
    make_course_entry tools_dir identifier gs_id roster
      (default_course_path tools_dir) mc
    = (Returns (), mc')
    ∧ main_extend get_close_matches roster assignments (arg_days args)
        (arg_names args) (console mc') = (r, w')
    ∧ main tools_dir interactive_setup main_configure parse_args get_assignments
        get_close_matches (prog :: "extend" :: rest) mc'
      = (match r with Ok a => Returns a | Raise e => Fails (Py e) end,
         {| console := w'; disk := disk mc' |}).
Proof.
  intros Hfile Hpath Hslash Hd Hparse Hid Hnames Hassign.
  destruct (make_course_entry_run tools_dir identifier gs_id roster
              (default_course_path tools_dir) mc s Hfile Hslash)
    as (w1 & Hrun & _).
  eexists.
  destruct (main_extend get_close_matches roster assignments (arg_days args)
              (arg_names args) w1) as [r w'] eqn:Hpasses.
  exists r, w'. split; [exact Hrun|]. split; [exact Hpasses|].
  erewrite main_with_courses; last first.
  - intros Heq.
    assert (identifier ∈ courses (settings_after s identifier)) as Hin.
    { unfold settings_after. cbn [courses]. case_bool_decide; [done|].
      apply elem_of_app. right. apply list_elem_of_here. }
    rewrite Heq in Hin. by apply elem_of_nil in Hin.
  - cbn [disk]. apply lookup_insert_eq.
  - cbn [String.eqb Ascii.eqb Bool.eqb].
    rewrite (main_extend_argv_run _ _ _ _ _ _ d args
               {| gradescope_id := gs_id; info_roster := roster |} assignments
               Hd Hparse Hnames); [| |exact Hassign].
    + cbn [info_roster]. unfold on_console. cbn [console disk].
      rewrite Hpasses. by destruct r.
    + cbn [disk course_path settings_after]. rewrite Hpath, Hid.
      rewrite lookup_insert_ne by (apply not_eq_sym, cfg_path_not_settings).
      apply lookup_insert_eq.
Qed.

Lemma course_entry_then_extend_witness :
  ∃ mc' r w',
    make_course_entry "/opt/ta" "cs101" "987" jane_roster
      (default_course_path "/opt/ta") settled_machine
    = (Returns (), mc')
    ∧ main_extend Difflib.get_close_matches jane_roster [hw1] 5 ["Jane Doe"]
        (console mc') = (r, w')
    ∧ main "/opt/ta" (fail FileNotFoundError) (mret ()) parse_last_name
        one_assignment Difflib.get_close_matches extend_jane mc'
      = (match r with Ok a => Returns a | Raise e => Fails (Py e) end,
         {| console := w'; disk := disk mc' |}).
Proof.
  apply (course_entry_then_extend "/opt/ta" (fail FileNotFoundError) (mret ())
           parse_last_name one_assignment Difflib.get_close_matches
           "cs101" "987" jane_roster "gs-tools.py" ["-s"; "hw1"; "Jane Doe"]
           settled_machine (default_settings "/opt/ta") "cs101"
           {| arg_id := "cs101"; arg_names := ["Jane Doe"]; arg_days := 5;
              arg_string := "hw1" |} [hw1]).
  - apply lookup_singleton_eq.
  - reflexivity.
  - reflexivity.
  - reflexivity.
  - reflexivity.
  - reflexivity.
  - discriminate.
  - reflexivity.
Defined.

(** ** The identifier of a course *)

Lemma identifier_loop_sound (known : list string) (pending : option string)
    (lines : list string) (o : list event) (identifier : string) (w' : world) :
  identifier_loop known pending lines o = (Ok identifier, w') →
  (∀ p, pending = Some p →
        p ≠ EmptyString ∧ Str.contains_char " " p = false) →
  identifier ≠ EmptyString
  ∧ Str.contains_char " " identifier = false
  ∧ ∃ more, out w' = o ++ more
      ∧ (identifier ∈ known →
         pending = Some identifier
         ∨ Print (overwrite_question identifier) ∈ more).
Proof.
  revert pending o.
  induction lines as [|line rest IH]; intros pending o;
    (destruct pending as [p|]; cbn [identifier_loop]); [done..| |].
  - intros Hrun Hp. destruct (Hp p eq_refl) as [Hne Hsp].
    destruct (yes_no_answer line) as [[]|].
    + injection Hrun as <- <-. split; [done|]. split; [done|].
      eexists. split; [reflexivity|]. by left.
    + apply IH in Hrun as (H1 & H2 & more & -> & H3); [|by intros ? [=]].
      split; [done|]. split; [done|].
      exists ([Prompt "(y/N): "] ++ more). split; [by rewrite app_assoc|].
      intros Hin. destruct (H3 Hin) as [[=]|Hq]. right.
      apply elem_of_app. by right.
    + apply IH in Hrun as (H1 & H2 & more & -> & H3); [|exact Hp].
      split; [done|]. split; [done|].
      exists ([Prompt "(y/N): "] ++ more). split; [by rewrite app_assoc|].
      intros Hin. destruct (H3 Hin) as [Hsame|Hq]; [by left|right].
      apply elem_of_app. by right.
  - intros Hrun _.
    destruct ((String.length (Str.strip line) =? 0)%nat
              || Str.contains_char " " (Str.strip line)) eqn:Hbad.
    { apply IH in Hrun as (H1 & H2 & more & -> & H3); [|by intros ? [=]].
      split; [done|]. split; [done|].
      exists ([Prompt identifier_prompt] ++ more). split; [by rewrite app_assoc|].
      intros Hin. destruct (H3 Hin) as [[=]|Hq]. right.
      apply elem_of_app. by right. }
    apply orb_false_iff in Hbad as [Hlen Hsp].
    assert (Str.strip line ≠ EmptyString) as Hne
      by (intros Heq; by rewrite Heq in Hlen).
    case_bool_decide as Hknown.
    + apply IH in Hrun as (H1 & H2 & more & -> & H3); [|by intros ? [= <-]].
      split; [done|]. split; [done|].
      exists ([Prompt identifier_prompt;
               Print (overwrite_question (Str.strip line))] ++ more).
      split; [by rewrite <-!app_assoc|].
      intros Hin. right. apply elem_of_app.
      destruct (H3 Hin) as [[= ->]|Hq]; [left|by right].
      apply list_elem_of_further, list_elem_of_here.
    + injection Hrun as <- <-. split; [done|]. split; [done|].
      eexists. split; [reflexivity|]. done.
Qed.

(** X22.  The identifier that the setup settles on is never empty and has
    no space in it, however many answers it took; and when it is the
    identifier of a course that the settings already list, the operator has
    been asked whether to overwrite that course. *)
Theorem choose_identifier_sound (known : list string) (w w' : world)
    (identifier : string) :
  choose_identifier known w = (Ok identifier, w') →
  identifier ≠ EmptyString
  ∧ Str.contains_char " " identifier = false
  ∧ ∃ more, out w' = out w ++ more
      ∧ (identifier ∈ known → Print (overwrite_question identifier) ∈ more).
Proof.
  intros Hrun. apply identifier_loop_sound in Hrun
    as (H1 & H2 & more & Hout & H3); [|by intros ? [=]].
  split; [done|]. split; [done|]. exists more. split; [done|].
  intros Hin. by destruct (H3 Hin) as [[=]|?].
Qed.

(** A blank line, a line with a space, a listed course turned down, the
    same course confirmed. *)
Lemma choose_identifier_sound_witness :
  "cs101" ≠ EmptyString
  ∧ Str.contains_char " " "cs101" = false
  ∧ ∃ more,
      [Prompt identifier_prompt; Prompt identifier_prompt;
       Prompt identifier_prompt; Print (overwrite_question "cs101");
       Prompt "(y/N): "; Prompt identifier_prompt;
       Print (overwrite_question "cs101"); Prompt "(y/N): "]
      = [] ++ more
      ∧ ("cs101" ∈ ["cs101"] → Print (overwrite_question "cs101") ∈ more).
Proof.
  apply (choose_identifier_sound ["cs101"]
           {| stdin := ["  "; "cs 101"; "cs101"; "n"; " cs101 "; "yes"; "left"];
              out := [] |}
           {| stdin := ["left"];
              out := [Prompt identifier_prompt; Prompt identifier_prompt;
                      Prompt identifier_prompt;
                      Print (overwrite_question "cs101");
                      Prompt "(y/N): "; Prompt identifier_prompt;
                      Print (overwrite_question "cs101"); Prompt "(y/N): "] |}
           "cs101").
  vm_compute. reflexivity.
Defined.

(** The prompt loop unrolled inside [identifier_loop] is the call of
    [yes_no_helper] of line 197. *)
Lemma identifier_loop_confirm (known : list string) (identifier : string)
    (lines : list string) (o : list event) :
  identifier_loop known (Some identifier) lines o
  = match yes_no_helper {| stdin := lines; out := o |} with
    | (Ok true, w) => (Ok identifier, w)
    | (Ok false, w) => identifier_loop known None (stdin w) (out w)
    | (Raise e, w) => (Raise e, w)
    end.
Proof.
  unfold yes_no_helper. cbn [stdin out]. revert o.
  induction lines as [|line rest IH]; intros o; [done|].
  cbn [identifier_loop yes_no_loop].
  destruct (yes_no_answer line) as [[]|]; [done..|]. apply IH.
Qed.

